(** * The task store of the todo dashboard

    A shallow embedding of [src/features/todos/todosSlice.ts] (the Redux
    slice holding the tasks), of the module that builds the store and
    persists it ([loadState], [saveState]) and of the form handler of
    [src/App.tsx] ([handleFormSubmit], [normalizeCategories]), followed by
    the properties of the store that the specification states.

    Conventions of the embedding.
    - A JavaScript string is the sequence of its code units; the code units
      of the embedding are the 256 values of [ascii].
    - [order: number] only ever holds integers in the store (the seed uses
      1, 2, 3, the reducers use [max + 1] and [index + 1]); it is a [Z].
      The [+ 1] of the reducers is the addition of Numbers, which is
      exact up to [2^53] and rounds from there on ([JsNumber.plus_one]);
      [index + 1] is exact, an array having less than [2^32] elements.
    - An optional property ([description?: string]) is an [option]: [None]
      stands for a missing property as well as for one holding [undefined],
      which no code of the store tells apart.  [completedAt?: string | null]
      of a task and [dueDate?: string | null] of a payload keep their three
      cases, see [Nullable].
    - Reducers run on an Immer draft: an assignment to the task returned by
      [find] replaces the element at the index where [find] found it.
    - [nanoid()] and [new Date().toISOString()] are reads of the outside
      world; every reducer takes the values these calls return ([Calls]). *)

From Stdlib Require Import ZArith Lia Ascii String.
From Stdlib Require Import Sorted.
From stdpp Require Import base decidable option list strings.

Set Warnings "-register-all".
Local Open Scope string_scope.
Local Open Scope Z_scope.

(** ** Strings: truthiness, [trim], [split], [join] *)

Module JsString.

(** [Boolean(s)]: only the empty string is falsy. *)
Definition truthy (s : string) : bool :=
  match s with
  | EmptyString => false
  | String _ _ => true
  end.

(** WhiteSpace and LineTerminator code points of ECMAScript below 256:
    TAB, LF, VT, FF, CR, SP and NBSP. *)
Definition is_white_space (c : ascii) : bool :=
  let n := nat_of_ascii c in
  ((9 <=? n)%nat && (n <=? 13)%nat) || (n =? 32)%nat || (n =? 160)%nat.

Fixpoint trimStart (s : string) : string :=
  match s with
  | EmptyString => EmptyString
  | String c rest => if is_white_space c then trimStart rest else s
  end.

Fixpoint trimEnd (s : string) : string :=
  match s with
  | EmptyString => EmptyString
  | String c rest =>
      match trimEnd rest with
      | EmptyString => if is_white_space c then EmptyString else String c EmptyString
      | kept => String c kept
      end
  end.

(** [String.prototype.trim] *)
Definition trim (s : string) : string := trimEnd (trimStart s).

(** [s.split(sep)] for a one-character separator: the pieces between the
    separators, always at least one piece. *)
Fixpoint split (sep : ascii) (s : string) : list string :=
  match s with
  | EmptyString => [EmptyString]
  | String c rest =>
      if Ascii.eqb c sep then EmptyString :: split sep rest
      else match split sep rest with
           | piece :: pieces => String c piece :: pieces
           | [] => [String c EmptyString]
           end
  end.

(** [pieces.join(sep)] *)
Fixpoint join (sep : string) (pieces : list string) : string :=
  match pieces with
  | [] => EmptyString
  | [piece] => piece
  | piece :: more => piece ++ sep ++ join sep more
  end.

End JsString.

Import JsString.

(** ** Data model ([todosSlice.ts], lines 4-38) *)

Inductive Priority := high | medium | low.

(** A property declared [?: T | null]: missing (or [undefined]), [null],
    or a value. *)
Inductive Nullable (A : Type) :=
  | Undefined
  | Null
  | Value (a : A).
Arguments Undefined {A}.
Arguments Null {A}.
Arguments Value {A} a.

Record TodoItem := mkTodoItem {
  id : string;
  title : string;
  description : option string;
  category : option string;
  priority : Priority;
  dueDate : option string;
  completed : bool;
  completedAt : Nullable string;
  createdAt : string;
  order : Z
}.

Record TodosState := mkTodosState {
  items : list TodoItem;
  lastUpdated : option string
}.

Record CreateTodoPayload := mkCreateTodoPayload {
  payload_title : string;
  payload_description : option string;
  payload_category : option string;
  payload_priority : Priority;
  payload_dueDate : Nullable string
}.

(** The [changes] of an [UpdateTodoPayload]: the fields of a
    [CreateTodoPayload] and [completed?: boolean]. *)
Record TodoChanges := mkTodoChanges {
  changes_title : string;
  changes_description : option string;
  changes_category : option string;
  changes_priority : Priority;
  changes_dueDate : Nullable string;
  changes_completed : option bool
}.

Global Instance Priority_eq_dec : EqDecision Priority.
Proof. solve_decision. Defined.
Global Instance Nullable_eq_dec {A} `{EqDecision A} : EqDecision (Nullable A).
Proof. solve_decision. Defined.
Global Instance TodoItem_eq_dec : EqDecision TodoItem.
Proof. solve_decision. Defined.
Global Instance TodosState_eq_dec : EqDecision TodosState.
Proof. solve_decision. Defined.

(** Field assignments on a task ([todo.order = ...] and the like). *)
Definition set_title (v : string) (todo : TodoItem) : TodoItem :=
  mkTodoItem (id todo) v (description todo) (category todo)
             (priority todo) (dueDate todo)
             (completed todo) (completedAt todo) (createdAt todo) (order todo).

Definition set_description (v : option string) (todo : TodoItem) : TodoItem :=
  mkTodoItem (id todo) (title todo) v (category todo)
             (priority todo) (dueDate todo)
             (completed todo) (completedAt todo) (createdAt todo) (order todo).

Definition set_category (v : option string) (todo : TodoItem) : TodoItem :=
  mkTodoItem (id todo) (title todo) (description todo) v
             (priority todo) (dueDate todo)
             (completed todo) (completedAt todo) (createdAt todo) (order todo).

Definition set_priority (v : Priority) (todo : TodoItem) : TodoItem :=
  mkTodoItem (id todo) (title todo) (description todo) (category todo)
             v (dueDate todo)
             (completed todo) (completedAt todo) (createdAt todo) (order todo).

Definition set_dueDate (v : option string) (todo : TodoItem) : TodoItem :=
  mkTodoItem (id todo) (title todo) (description todo) (category todo)
             (priority todo) v
             (completed todo) (completedAt todo) (createdAt todo) (order todo).

Definition set_completed (b : bool) (todo : TodoItem) : TodoItem :=
  mkTodoItem (id todo) (title todo) (description todo) (category todo)
             (priority todo) (dueDate todo)
             b (completedAt todo) (createdAt todo) (order todo).

Definition set_completedAt (at_ : Nullable string) (todo : TodoItem) : TodoItem :=
  mkTodoItem (id todo) (title todo) (description todo) (category todo)
             (priority todo) (dueDate todo)
             (completed todo) at_ (createdAt todo) (order todo).

Definition set_order (o : Z) (todo : TodoItem) : TodoItem :=
  mkTodoItem (id todo) (title todo) (description todo) (category todo)
             (priority todo) (dueDate todo)
             (completed todo) (completedAt todo) (createdAt todo) o.

(** ** The outside world of one reducer run *)

(** What the calls of one reducer run return: [nanoid()], the
    [new Date().toISOString()] stored in the task ([createdAt] or
    [completedAt]) and the one of [touchState]. *)
Record Calls := mkCalls {
  nanoid : string;
  stamp : string;
  touched : string
}.

(** ** Reducers ([todosSlice.ts], lines 84-167) *)

Definition touchState (w : Calls) (state : TodosState) : TodosState :=
  mkTodosState (items state) (Some (touched w)).

(** [order] is a Number, a double, that holds an integer.  The integers
    up to [2^53] are Numbers, and a sum that stays there is exact; from
    [2^53] to [2^54] the Numbers are the even integers; further up they
    are 4 apart or more. *)
Module JsNumber.

(** [Number.MAX_SAFE_INTEGER], which is [2^53 - 1]. *)
Definition MAX_SAFE_INTEGER : Z := 9007199254740991.

(** The Number nearest to the integer [z] (below [2^1024] in absolute
    value): [z] itself when it has 53 bits or less, and else, [e] being
    the number of its bits beyond 53, the multiple of [2^e] nearest to it,
    the even multiple when two are as near. *)
Definition nearest (z : Z) : Z :=
  let e := Z.log2 (Z.abs z) - 52 in
  if e <=? 0 then z
  else
    let ulp := 2 ^ e in
    let q := z / ulp in
    let r := z mod ulp in
    if 2 * r <? ulp then q * ulp
    else if ulp <? 2 * r then (q + 1) * ulp
    else if Z.even q then q * ulp else (q + 1) * ulp.

(** [x + 1] for a Number [x >= 0] that holds an integer: the sum rounded
    to the nearest Number, to the one with the even significand when two
    are as near ([plus_one_nearest] below).  It is exact up to [2^53];
    from [2^53] to [2^54], where [x + 1] is halfway between [x] and
    [x + 2], it is [x] when [x / 2], the significand of [x], is even and
    [x + 2] when it is odd; from [2^54] on it is [x]. *)
Definition plus_one (x : Z) : Z :=
  if x <=? MAX_SAFE_INTEGER then x + 1
  else if x <? 18014398509481984
       then (if Z.even (x / 2) then x else x + 2)
       else x.

End JsNumber.
Import JsNumber.

(** [state.items.reduce((max, todo) => Math.max(max, todo.order), 0) + 1] *)
Definition nextOrder (todos : list TodoItem) : Z :=
  plus_one (foldl (fun max todo => Z.max max (order todo)) 0 todos).

(** [text?.trim() ? text : undefined] *)
Definition nonblank (text : option string) : option string :=
  match text with
  | Some s => if truthy (trim s) then Some s else None
  | None => None
  end.

(** [dueDate || undefined] *)
Definition or_undefined (d : Nullable string) : option string :=
  match d with
  | Value s => if truthy s then Some s else None
  | Null | Undefined => None
  end.

(** [state.items.find((item) => item.id === wanted)], with the index of the
    task found. *)
Definition find_by_id (wanted : string) (todos : list TodoItem)
    : option (nat * TodoItem) :=
  list_find (fun item => id item = wanted) todos.

Definition addTodo (w : Calls) (payload : CreateTodoPayload)
    (state : TodosState) : TodosState :=
  let created :=
    mkTodoItem (nanoid w)
               (payload_title payload)
               (nonblank (payload_description payload))
               (nonblank (payload_category payload))
               (payload_priority payload)
               (or_undefined (payload_dueDate payload))
               false
               Null
               (stamp w)
               (nextOrder (items state)) in
  touchState w (mkTodosState (items state ++ [created]) (lastUpdated state)).

Definition updateTodo (w : Calls) (wanted : string) (changes : TodoChanges)
    (state : TodosState) : TodosState :=
  match find_by_id wanted (items state) with
  | None => state
  | Some (i, todo) =>
      let todo := set_title (changes_title changes) todo in
      let todo := set_description (nonblank (changes_description changes)) todo in
      let todo := set_category (nonblank (changes_category changes)) todo in
      let todo := set_priority (changes_priority changes) todo in
      let todo := set_dueDate (or_undefined (changes_dueDate changes)) todo in
      let todo :=
        match changes_completed changes with
        | Some c =>
            let todo := set_completed c todo in
            let todo :=
              set_completedAt (if c then Value (stamp w) else Null) todo in
            if negb c
            then set_order (nextOrder (<[i:=todo]> (items state))) todo
            else todo
        | None => todo
        end in
      touchState w (mkTodosState (<[i:=todo]> (items state)) (lastUpdated state))
  end.

Definition toggleComplete (w : Calls) (wanted : string)
    (state : TodosState) : TodosState :=
  match find_by_id wanted (items state) with
  | None => state
  | Some (i, todo) =>
      let todo := set_completed (negb (completed todo)) todo in
      let todo :=
        set_completedAt (if completed todo then Value (stamp w) else Null) todo in
      let todo :=
        if negb (completed todo)
        then set_order (nextOrder (<[i:=todo]> (items state))) todo
        else todo in
      touchState w (mkTodosState (<[i:=todo]> (items state)) (lastUpdated state))
  end.

Definition deleteTodo (w : Calls) (wanted : string)
    (state : TodosState) : TodosState :=
  touchState w
    (mkTodosState (filter (fun item => id item ≠ wanted) (items state))
                  (lastUpdated state)).

(** The body of [updatedIds.forEach((id, index) => ...)], from [index] on. *)
Fixpoint reorder_from (index : nat) (updatedIds : list string)
    (todos : list TodoItem) : list TodoItem :=
  match updatedIds with
  | [] => todos
  | wanted :: rest =>
      reorder_from (S index) rest
        match find_by_id wanted todos with
        | Some (i, todo) => <[i:=set_order (Z.of_nat index + 1) todo]> todos
        | None => todos
        end
  end.

Definition reorderActive (w : Calls) (updatedIds : list string)
    (state : TodosState) : TodosState :=
  touchState w
    (mkTodosState (reorder_from 0 updatedIds (items state)) (lastUpdated state)).

(** The actions of the slice and its reducer. *)
Inductive Action :=
  | AddTodo (payload : CreateTodoPayload)
  | UpdateTodo (wanted : string) (changes : TodoChanges)
  | ToggleComplete (wanted : string)
  | DeleteTodo (wanted : string)
  | ReorderActive (updatedIds : list string).

Definition todosReducer (w : Calls) (action : Action)
    (state : TodosState) : TodosState :=
  match action with
  | AddTodo payload => addTodo w payload state
  | UpdateTodo wanted changes => updateTodo w wanted changes state
  | ToggleComplete wanted => toggleComplete w wanted state
  | DeleteTodo wanted => deleteTodo w wanted state
  | ReorderActive updatedIds => reorderActive w updatedIds state
  end.

(** ** The built-in seed ([todosSlice.ts], lines 40-82) *)

(** What the calls evaluated while the module loads return: three
    [nanoid()], the two due dates computed from [Date.now()], the
    [new Date().toISOString()] of each [createdAt], of the third task's
    [completedAt] and of [lastUpdated]. *)
Record SeedCalls := mkSeedCalls {
  seed_id1 : string;
  seed_due1 : string;
  seed_created1 : string;
  seed_id2 : string;
  seed_due2 : string;
  seed_created2 : string;
  seed_id3 : string;
  seed_completedAt3 : string;
  seed_created3 : string;
  seed_lastUpdated : string
}.

Definition starterTodos (w : SeedCalls) : list TodoItem :=
  [ mkTodoItem (seed_id1 w) "Plan sprint backlog"
      (Some "Review tasks for the week and assign ownership.")
      (Some "Work") high (Some (seed_due1 w))
      false Null (seed_created1 w) 1;
    mkTodoItem (seed_id2 w) "Grocery run"
      (Some "Ingredients for the weekend dinner party.")
      (Some "Personal") medium (Some (seed_due2 w))
      false Null (seed_created2 w) 2;
    mkTodoItem (seed_id3 w) "Call mom"
      (Some EmptyString)
      (Some "Family") low None
      true (Value (seed_completedAt3 w)) (seed_created3 w) 3 ].

Definition initialState (w : SeedCalls) : TodosState :=
  mkTodosState (starterTodos w) (Some (seed_lastUpdated w)).

(** The states the store goes through: the seed, then one reducer run per
    dispatched action. *)
Inductive reachable (seed : SeedCalls) : TodosState -> Prop :=
  | reachable_init : reachable seed (initialState seed)
  | reachable_step w action state :
      reachable seed state ->
      reachable seed (todosReducer w action state).

(** ** Completions *)

(** How a call ends: with a value, or by throwing. *)
Inductive Completion (A : Type) :=
  | Normal (a : A)
  | Throw.
Arguments Normal {A} a.
Arguments Throw {A}.

(** ** The form handler ([App.tsx], lines 56-61 and 115-152) *)

Record TaskFormValues := mkTaskFormValues {
  values_title : string;
  values_description : string;
  values_category : string;
  values_priority : Priority;
  values_dueDate : string
}.

Definition normalizeCategories (value : string) : string :=
  join ", "
    (List.filter truthy (List.map trim (split ","%char value))).

Section FormHandler.

(** [new Date(text).toISOString()]: the ISO form of the date, or a
    [RangeError] ([None]) when [text] is no date. *)
Variable date_toISOString : string -> option string.

(** The action that [handleFormSubmit] dispatches, if it dispatches one. *)
Definition handleFormSubmit (editingTodo : option TodoItem)
    (values : TaskFormValues) : Completion (option Action) :=
  let sanitizedTitle := trim (values_title values) in
  if negb (truthy sanitizedTitle) then Normal None
  else
    let formattedDueDate : Completion (Nullable string) :=
      if truthy (values_dueDate values)
      then match date_toISOString (values_dueDate values) with
           | Some iso => Normal (Value iso)
           | None => Throw
           end
      else Normal Undefined in
    match formattedDueDate with
    | Throw => Throw
    | Normal formattedDueDate =>
        let normalizedCategories :=
          normalizeCategories (values_category values) in
        let category :=
          if truthy normalizedCategories then normalizedCategories
          else EmptyString in
        match editingTodo with
        | Some editing =>
            Normal (Some (UpdateTodo (id editing)
              (mkTodoChanges sanitizedTitle
                             (Some (trim (values_description values)))
                             (Some category)
                             (values_priority values)
                             formattedDueDate
                             None)))
        | None =>
            Normal (Some (AddTodo
              (mkCreateTodoPayload sanitizedTitle
                                   (Some (trim (values_description values)))
                                   (Some category)
                                   (values_priority values)
                                   formattedDueDate)))
        end
    end.

(** The store state after the form was submitted: the reducer runs on
    the dispatched action; without a dispatch the state stays. *)
Definition submit (w : Calls) (editingTodo : option TodoItem)
    (values : TaskFormValues) (state : TodosState) : Completion TodosState :=
  match handleFormSubmit editingTodo values with
  | Throw => Throw
  | Normal None => Normal state
  | Normal (Some action) => Normal (todosReducer w action state)
  end.

End FormHandler.

(** ** JSON values and the persisted layout *)

Inductive json :=
  | JNull
  | JBool (b : bool)
  | JNumber (n : Z)
  | JString (s : string)
  | JArray (elements : list json)
  | JObject (members : list (string * json)).

(** [members[key]]; an object holds a key once. *)
Fixpoint member (key : string) (members : list (string * json)) : option json :=
  match members with
  | [] => None
  | (k, v) :: rest => if String.eqb k key then Some v else member key rest
  end.

(** [value[key]], [None] for [undefined]. *)
Definition property (key : string) (value : json) : option json :=
  match value with
  | JObject members => member key members
  | _ => None
  end.

(** Induction on a JSON value, with the property at hand for the values
    inside an array and an object. *)
Section JsonInduction.

Variable P : json -> Prop.
Hypothesis HNull : P JNull.
Hypothesis HBool : forall b, P (JBool b).
Hypothesis HNumber : forall n, P (JNumber n).
Hypothesis HString : forall s, P (JString s).
Hypothesis HArray : forall elements, Forall P elements -> P (JArray elements).
Hypothesis HObject :
  forall members, Forall (fun kv => P kv.2) members -> P (JObject members).

Fixpoint json_nested_ind (v : json) : P v :=
  match v with
  | JNull => HNull
  | JBool b => HBool b
  | JNumber n => HNumber n
  | JString s => HString s
  | JArray elements =>
      HArray elements
        ((fix all (l : list json) : Forall P l :=
            match l with
            | [] => List.Forall_nil P
            | x :: l => @List.Forall_cons _ P x l (json_nested_ind x) (all l)
            end) elements)
  | JObject members =>
      HObject members
        ((fix all (l : list (string * json)) : Forall (fun kv => P kv.2) l :=
            match l with
            | [] => List.Forall_nil _
            | (k, x) :: l =>
                @List.Forall_cons _ (fun kv => P kv.2) (k, x) l
                  (json_nested_ind x) (all l)
            end) members)
  end.

End JsonInduction.

Record PersistedState := mkPersistedState { todos : TodosState }.

(** The object that [JSON.stringify] walks: a property holding [undefined]
    is skipped, one holding [null] is written. *)
Definition optional (key : string) (v : option string) : list (string * json) :=
  match v with
  | Some s => [(key, JString s)]
  | None => []
  end.

Definition nullable (key : string) (v : Nullable string) : list (string * json) :=
  match v with
  | Undefined => []
  | Null => [(key, JNull)]
  | Value s => [(key, JString s)]
  end.

Definition Priority_to_json (p : Priority) : json :=
  JString match p with
          | high => "high"
          | medium => "medium"
          | low => "low"
          end.

Definition TodoItem_to_json (todo : TodoItem) : json :=
  JObject ([("id", JString (id todo)); ("title", JString (title todo))]
           ++ optional "description" (description todo)
           ++ optional "category" (category todo)
           ++ [("priority", Priority_to_json (priority todo))]
           ++ optional "dueDate" (dueDate todo)
           ++ [("completed", JBool (completed todo))]
           ++ nullable "completedAt" (completedAt todo)
           ++ [("createdAt", JString (createdAt todo));
               ("order", JNumber (order todo))]).

Definition TodosState_to_json (state : TodosState) : json :=
  JObject [("items", JArray (TodoItem_to_json <$> items state));
           ("lastUpdated", match lastUpdated state with
                           | Some s => JString s
                           | None => JNull
                           end)].

Definition PersistedState_to_json (state : PersistedState) : json :=
  JObject [("todos", TodosState_to_json (todos state))].

(** The expected shape: a JSON value read through the declared types
    ([parsed as PersistedState]); [None] when the value does not have the
    shape of the type. *)
Definition required_string (key : string) (v : json) : option string :=
  match property key v with
  | Some (JString s) => Some s
  | _ => None
  end.

Definition optional_string (key : string) (v : json) : option (option string) :=
  match property key v with
  | None => Some None
  | Some (JString s) => Some (Some s)
  | Some _ => None
  end.

Definition nullable_string (key : string) (v : json) : option (Nullable string) :=
  match property key v with
  | None => Some Undefined
  | Some JNull => Some Null
  | Some (JString s) => Some (Value s)
  | Some _ => None
  end.

Definition as_Priority (v : json) : option Priority :=
  match v with
  | JString s =>
      if String.eqb s "high" then Some high
      else if String.eqb s "medium" then Some medium
      else if String.eqb s "low" then Some low
      else None
  | _ => None
  end.

Definition as_TodoItem (v : json) : option TodoItem :=
  i ← required_string "id" v;
  t ← required_string "title" v;
  d ← optional_string "description" v;
  c ← optional_string "category" v;
  p ← property "priority" v ≫= as_Priority;
  due ← optional_string "dueDate" v;
  done_ ← match property "completed" v with
           | Some (JBool b) => Some b
           | _ => None
           end;
  doneAt ← nullable_string "completedAt" v;
  born ← required_string "createdAt" v;
  o ← match property "order" v with
      | Some (JNumber n) => Some n
      | _ => None
      end;
  Some (mkTodoItem i t d c p due done_ doneAt born o).

Definition as_TodosState (v : json) : option TodosState :=
  its ← match property "items" v with
        | Some (JArray elements) => mapM as_TodoItem elements
        | _ => None
        end;
  upd ← match property "lastUpdated" v with
        | Some JNull => Some None
        | Some (JString s) => Some (Some s)
        | _ => None
        end;
  Some (mkTodosState its upd).

Definition as_PersistedState (v : json) : option PersistedState :=
  slice ← property "todos" v;
  t ← as_TodosState slice;
  Some (mkPersistedState t).

(** ** Local storage *)

(** [window.localStorage]: the slots, whether the browser denies access to
    them (every call throws), and the longest value that still fits (a
    longer one makes [setItem] throw). *)
Record Storage := mkStorage {
  denied : bool;
  quota : N;
  slots : list (string * string)
}.

Fixpoint slot (key : string) (kvs : list (string * string)) : option string :=
  match kvs with
  | [] => None
  | (k, v) :: rest => if String.eqb k key then Some v else slot key rest
  end.

Fixpoint put (key value : string) (kvs : list (string * string))
    : list (string * string) :=
  match kvs with
  | [] => [(key, value)]
  | (k, v) :: rest =>
      if String.eqb k key then (k, value) :: rest
      else (k, v) :: put key value rest
  end.

(** [localStorage.getItem(key)]: the value, or [null] ([None]). *)
Definition getItem (key : string) (localStorage : Storage)
    : Completion (option string) :=
  if denied localStorage then Throw
  else Normal (slot key (slots localStorage)).

Definition setItem (key value : string) (localStorage : Storage)
    : Completion Storage :=
  if denied localStorage then Throw
  else if (quota localStorage <? N.of_nat (String.length value))%N then Throw
  else Normal (mkStorage false (quota localStorage)
                         (put key value (slots localStorage))).

(** ** Persistence ([loadState], [saveState] and the store) *)

Definition STORAGE_KEY : string := "dashboard-todos".

Section Persistence.

(** [JSON.parse] (a [SyntaxError] is [Throw]) and [JSON.stringify]. *)
Variable JSON_parse : string -> Completion json.
Variable JSON_stringify : json -> string.

(** [window] is [None] outside a browser ([isBrowser] is false).  The
    result is [None] for [undefined]. *)
Definition loadState (window : option Storage) : option json :=
  match window with
  | None => None
  | Some localStorage =>
      match getItem STORAGE_KEY localStorage with
      | Throw => None
      | Normal None => None
      | Normal (Some serialized) =>
          if negb (truthy serialized) then None
          else match JSON_parse serialized with
               | Throw => None
               | Normal parsed => Some parsed
               end
      end
  end.

(** The window after the call. *)
Definition saveState (state : PersistedState) (window : option Storage)
    : option Storage :=
  match window with
  | None => None
  | Some localStorage =>
      let serialized := JSON_stringify (PersistedState_to_json state) in
      match setItem STORAGE_KEY serialized localStorage with
      | Throw => Some localStorage
      | Normal written => Some written
      end
  end.

(** The [todos] slice of the store that [configureStore] builds from
    [preloadedState = loadState()]: Redux runs the slice reducer on
    [preloadedState.todos], and the reducer answers [undefined] with its
    [initialState] and keeps any other value; reading [.todos] of [null]
    throws. *)
Definition store_todos (seed : SeedCalls) (preloadedState : option json)
    : Completion json :=
  match preloadedState with
  | None => Normal (TodosState_to_json (initialState seed))
  | Some JNull => Throw
  | Some preloaded =>
      match property "todos" preloaded with
      | Some slice => Normal slice
      | None => Normal (TodosState_to_json (initialState seed))
      end
  end.

End Persistence.

(** ** An executable [JSON.stringify] and [JSON.parse]

    The two functions of the platform on the values of [json], to run the
    persistence on concrete slot contents.  Numbers are the integer
    literals, [\u] escapes the ones of the code units of the embedding;
    [parse] rejects the other texts. *)

Module Json.

Definition char (n : nat) : string := String (ascii_of_nat n) EmptyString.
Definition quote_mark : string := char 34.
Definition backslash : string := char 92.

Definition hex_digit (n : nat) : string :=
  char (if (n <? 10)%nat then 48 + n else 87 + n)%nat.

(** One code unit inside a string literal (QuoteJSONString). *)
Definition escape (c : ascii) : string :=
  let n := nat_of_ascii c in
  if (n =? 34)%nat then backslash ++ quote_mark
  else if (n =? 92)%nat then backslash ++ backslash
  else if (n =? 8)%nat then backslash ++ "b"
  else if (n =? 12)%nat then backslash ++ "f"
  else if (n =? 10)%nat then backslash ++ "n"
  else if (n =? 13)%nat then backslash ++ "r"
  else if (n =? 9)%nat then backslash ++ "t"
  else if (n <? 32)%nat
       then backslash ++ "u00" ++ hex_digit (n / 16) ++ hex_digit (n mod 16)
  else String c EmptyString.

Fixpoint escape_all (s : string) : string :=
  match s with
  | EmptyString => EmptyString
  | String c rest => escape c ++ escape_all rest
  end.

Definition quote (s : string) : string :=
  quote_mark ++ escape_all s ++ quote_mark.

Fixpoint digits (fuel : nat) (n : N) (acc : string) : string :=
  match fuel with
  | O => acc
  | S fuel =>
      let acc := String (ascii_of_N (48 + n mod 10)) acc in
      if (n / 10 =? 0)%N then acc else digits fuel (n / 10)%N acc
  end.

Definition number (z : Z) : string :=
  let n := Z.to_N (Z.abs z) in
  let text := digits (S (N.to_nat (N.log2 n))) n EmptyString in
  if z <? 0 then "-" ++ text else text.

Fixpoint stringify (v : json) : string :=
  match v with
  | JNull => "null"
  | JBool true => "true"
  | JBool false => "false"
  | JNumber n => number n
  | JString s => quote s
  | JArray elements =>
      "[" ++ join "," (List.map stringify elements) ++ "]"
  | JObject members =>
      "{" ++ join ","
               (List.map (fun kv => quote (fst kv) ++ ":" ++ stringify (snd kv))
                         members)
          ++ "}"
  end.

(** *** Parsing *)

Definition is_ws (c : ascii) : bool :=
  let n := nat_of_ascii c in
  (n =? 32)%nat || (n =? 9)%nat || (n =? 10)%nat || (n =? 13)%nat.

Fixpoint skip_ws (s : string) : string :=
  match s with
  | String c rest => if is_ws c then skip_ws rest else s
  | EmptyString => EmptyString
  end.

Fixpoint strip_prefix (p s : string) : option string :=
  match p, s with
  | EmptyString, _ => Some s
  | String a p, String b s => if Ascii.eqb a b then strip_prefix p s else None
  | String _ _, EmptyString => None
  end.

Definition hex_value (c : ascii) : option nat :=
  let n := nat_of_ascii c in
  if (48 <=? n)%nat && (n <=? 57)%nat then Some (n - 48)%nat
  else if (97 <=? n)%nat && (n <=? 102)%nat then Some (n - 87)%nat
  else if (65 <=? n)%nat && (n <=? 70)%nat then Some (n - 55)%nat
  else None.

(** The code unit that an escape letter stands for. *)
Definition unescape (c : ascii) : option ascii :=
  let n := nat_of_ascii c in
  if (n =? 34)%nat || (n =? 92)%nat || (n =? 47)%nat then Some c
  else if (n =? 98)%nat then Some (ascii_of_nat 8)
  else if (n =? 102)%nat then Some (ascii_of_nat 12)
  else if (n =? 110)%nat then Some (ascii_of_nat 10)
  else if (n =? 114)%nat then Some (ascii_of_nat 13)
  else if (n =? 116)%nat then Some (ascii_of_nat 9)
  else None.

(** The rest of a string literal after its opening quote, and what
    follows the closing quote. *)
Fixpoint string_body (s : string) : option (string * string) :=
  match s with
  | EmptyString => None
  | String c rest =>
      let n := nat_of_ascii c in
      if (n =? 34)%nat then Some (EmptyString, rest)
      else if (n =? 92)%nat then
        match rest with
        | String e rest =>
            if (nat_of_ascii e =? 117)%nat then
              match rest with
              | String h1 (String h2 (String h3 (String h4 rest))) =>
                  match hex_value h1, hex_value h2, hex_value h3, hex_value h4 with
                  | Some 0%nat, Some 0%nat, Some a, Some b =>
                      match string_body rest with
                      | Some (body, after) =>
                          Some (String (ascii_of_nat (16 * a + b)) body, after)
                      | None => None
                      end
                  | _, _, _, _ => None
                  end
              | _ => None
              end
            else
              match unescape e, string_body rest with
              | Some u, Some (body, after) => Some (String u body, after)
              | _, _ => None
              end
        | EmptyString => None
        end
      else if (n <? 32)%nat then None
      else match string_body rest with
           | Some (body, after) => Some (String c body, after)
           | None => None
           end
  end.

Definition is_digit (c : ascii) : bool :=
  let n := nat_of_ascii c in (48 <=? n)%nat && (n <=? 57)%nat.

(** The digits at the start of [s] read after the value [acc], and the
    rest of [s]. *)
Fixpoint natural (acc : Z) (s : string) : Z * string :=
  match s with
  | String c rest =>
      if is_digit c
      then natural (10 * acc + Z.of_nat (nat_of_ascii c - 48)) rest
      else (acc, s)
  | EmptyString => (acc, s)
  end.

(** An integer literal without sign: [0], or digits not starting with
    [0]; a fraction or an exponent after it is rejected. *)
Definition unsigned (s : string) : option (Z * string) :=
  match s with
  | String c rest =>
      if is_digit c then
        let '(n, after) := natural 0 s in
        let leading_zero :=
          (nat_of_ascii c =? 48)%nat
          && match rest with
             | String d _ => is_digit d
             | EmptyString => false
             end in
        let continues :=
          match after with
          | String d _ =>
              let k := nat_of_ascii d in
              (k =? 46)%nat || (k =? 101)%nat || (k =? 69)%nat
          | EmptyString => false
          end in
        if leading_zero || continues then None else Some (n, after)
      else None
  | EmptyString => None
  end.

Fixpoint value (fuel : nat) (s : string) : option (json * string) :=
  match fuel with
  | O => None
  | S fuel =>
      match skip_ws s with
      | EmptyString => None
      | String c rest as text =>
          let n := nat_of_ascii c in
          if (n =? 110)%nat then
            after ← strip_prefix "null" text; Some (JNull, after)
          else if (n =? 116)%nat then
            after ← strip_prefix "true" text; Some (JBool true, after)
          else if (n =? 102)%nat then
            after ← strip_prefix "false" text; Some (JBool false, after)
          else if (n =? 34)%nat then
            '(body, after) ← string_body rest; Some (JString body, after)
          else if (n =? 45)%nat then
            '(k, after) ← unsigned rest; Some (JNumber (- k), after)
          else if (n =? 91)%nat then
            match skip_ws rest with
            | String d after =>
                if (nat_of_ascii d =? 93)%nat then Some (JArray [], after)
                else '(elements, after) ← elements fuel rest;
                     Some (JArray elements, after)
            | EmptyString => None
            end
          else if (n =? 123)%nat then
            match skip_ws rest with
            | String d after =>
                if (nat_of_ascii d =? 125)%nat then Some (JObject [], after)
                else '(members, after) ← members fuel rest;
                     Some (JObject members, after)
            | EmptyString => None
            end
          else
            '(k, after) ← unsigned text; Some (JNumber k, after)
      end
  end

(** One or more values separated by commas, up to the closing bracket. *)
with elements (fuel : nat) (s : string) : option (list json * string) :=
  match fuel with
  | O => None
  | S fuel =>
      '(first, after) ← value fuel s;
      match skip_ws after with
      | String c rest =>
          if (nat_of_ascii c =? 93)%nat then Some ([first], rest)
          else if (nat_of_ascii c =? 44)%nat then
            '(more, after) ← elements fuel rest; Some (first :: more, after)
          else None
      | EmptyString => None
      end
  end

(** One or more [key: value] separated by commas, up to the closing
    brace; of two members with one key the later one stays. *)
with members (fuel : nat) (s : string)
    : option (list (string * json) * string) :=
  match fuel with
  | O => None
  | S fuel =>
      match skip_ws s with
      | String q rest =>
          if (nat_of_ascii q =? 34)%nat then
            '(key, after) ← string_body rest;
            match skip_ws after with
            | String colon rest =>
                if (nat_of_ascii colon =? 58)%nat then
                  '(v, after) ← value fuel rest;
                  match skip_ws after with
                  | String c rest =>
                      if (nat_of_ascii c =? 125)%nat
                      then Some ([(key, v)], rest)
                      else if (nat_of_ascii c =? 44)%nat then
                        '(more, after) ← members fuel rest;
                        Some (match member key more with
                              | Some _ => more
                              | None => (key, v) :: more
                              end, after)
                      else None
                  | EmptyString => None
                  end
                else None
            | EmptyString => None
            end
          else None
      | EmptyString => None
      end
  end.

(** [JSON.parse]: one value between white space, or a [SyntaxError]. *)
Definition parse (text : string) : Completion json :=
  match value (2 * String.length text + 2) text with
  | Some (v, after) =>
      match skip_ws after with
      | EmptyString => Normal v
      | String _ _ => Throw
      end
  | None => Throw
  end.

End Json.

(** ** Notions used by the statements *)

(** [completedAt] holds a value: it is neither missing nor [null]. *)
Definition has_completedAt (todo : TodoItem) : bool :=
  match completedAt todo with
  | Value _ => true
  | Null | Undefined => false
  end.

Definition completion_consistent (todo : TodoItem) : Prop :=
  has_completedAt todo = completed todo.

(** The ids of the collection, in its sequence. *)
Definition ids (state : TodosState) : list string := id <$> items state.

(** No order is above [Number.MAX_SAFE_INTEGER]: the [+ 1] of the reducers
    is exact. *)
Definition safe_orders (todos : list TodoItem) : Prop :=
  Forall (fun todo => order todo <= MAX_SAFE_INTEGER) todos.

(** A sequence of [addTodo]: each with the values its calls return. *)
Definition add_all (adds : list (Calls * CreateTodoPayload))
    (state : TodosState) : TodosState :=
  foldl (fun s add => addTodo add.1 add.2 s) state adds.




(** The task that [toggleComplete] leaves at index [i], where [find] found
    [todo]. *)
Definition toggled (w : Calls) (state : TodosState) (i : nat)
    (todo : TodoItem) : TodoItem :=
  let flipped :=
    set_completedAt (if negb (completed todo) then Value (stamp w) else Null)
                    (set_completed (negb (completed todo)) todo) in
  if completed todo
  then set_order (nextOrder (<[i:=flipped]> (items state))) flipped
  else flipped.

(** The task that [updateTodo] leaves there when [completed: false] is
    passed. *)
Definition updated_active (w : Calls) (state : TodosState) (i : nat)
    (todo : TodoItem) (changes : TodoChanges) : TodoItem :=
  let edited :=
    set_completedAt Null
      (set_completed false
        (set_dueDate (or_undefined (changes_dueDate changes))
          (set_priority (changes_priority changes)
            (set_category (nonblank (changes_category changes))
              (set_description (nonblank (changes_description changes))
                (set_title (changes_title changes) todo)))))) in
  set_order (nextOrder (<[i:=edited]> (items state))) edited.

(** The slot gives nothing to parse: there is no browser, reading throws,
    the slot is missing or holds the empty string, or [JSON.parse] throws
    on what it holds. *)
Inductive nothing_to_load (parse : string -> Completion json)
    : option Storage -> Prop :=
  | no_browser :
      nothing_to_load parse None
  | unreadable localStorage :
      getItem STORAGE_KEY localStorage = Throw ->
      nothing_to_load parse (Some localStorage)
  | absent localStorage :
      getItem STORAGE_KEY localStorage = Normal None ->
      nothing_to_load parse (Some localStorage)
  | empty localStorage :
      getItem STORAGE_KEY localStorage = Normal (Some EmptyString) ->
      nothing_to_load parse (Some localStorage)
  | unparseable localStorage serialized :
      getItem STORAGE_KEY localStorage = Normal (Some serialized) ->
      parse serialized = Throw ->
      nothing_to_load parse (Some localStorage).

(** *** Reading back a written JSON text *)

(** What may follow a value inside a text: nothing, a comma, a closing
    bracket or a closing brace. *)
Definition closes (rest : string) : bool :=
  match rest with
  | EmptyString => true
  | String c _ =>
      let n := nat_of_ascii c in
      (n =? 44)%nat || (n =? 93)%nat || (n =? 125)%nat
  end.

(** How a written value starts: with a character that is no white space,
    no closing bracket and no closing brace. *)
Definition opens (text : string) : Prop :=
  exists c tail,
    text = String c tail
    /\ Json.is_ws c = false
    /\ (nat_of_ascii c =? 93)%nat = false
    /\ (nat_of_ascii c =? 125)%nat = false.

(** Fuel that is enough for [Json.value] to read a written value back. *)
Fixpoint cost (v : json) : nat :=
  match v with
  | JArray elements => S (foldr (fun x acc => S (cost x + acc)%nat) 0%nat elements)
  | JObject members => S (foldr (fun kv acc => S (cost kv.2 + acc)%nat) 0%nat members)
  | _ => 1
  end.

(** No object of the value holds a key twice. *)
Fixpoint keys_once (v : json) : Prop :=
  match v with
  | JArray elements => foldr (fun x acc => keys_once x /\ acc) True elements
  | JObject members =>
      NoDup members.*1 /\ foldr (fun kv acc => keys_once kv.2 /\ acc) True members
  | _ => True
  end.

(** The text of one member of an object. *)
Definition member_text (kv : string * json) : string :=
  Json.quote kv.1 ++ ":" ++ Json.stringify kv.2.

(** [Json.value] reads the text of [x] back, whatever closes it. *)
Definition reads_back (x : json) : Prop :=
  keys_once x ->
  forall fuel rest,
    (cost x <= fuel)%nat ->
    closes rest = true ->
    Json.value fuel (Json.stringify x ++ rest) = Some (x, rest).

(** ** Concrete inputs *)

Definition seed0 : SeedCalls :=
  mkSeedCalls "id-1" "2026-01-03T09:00:00.000Z" "2026-01-01T09:00:00.000Z"
              "id-2" "2026-01-05T09:00:00.000Z" "2026-01-01T09:00:00.000Z"
              "id-3" "2026-01-01T09:00:00.000Z" "2026-01-01T09:00:00.000Z"
              "2026-01-01T09:00:00.000Z".

Definition calls1 : Calls :=
  mkCalls "id-4" "2026-01-02T10:00:00.000Z" "2026-01-02T10:00:00.001Z".

Definition calls2 : Calls :=
  mkCalls "id-5" "2026-01-02T11:00:00.000Z" "2026-01-02T11:00:00.001Z".

(** A stand-in for [new Date(text).toISOString()] in the examples: a text
    of ten characters is taken for the value [YYYY-MM-DD] of a date input
    (midnight UTC), any other text for no date. *)
Definition date_input_toISOString (text : string) : option string :=
  if (String.length text =? 10)%nat then Some (text ++ "T00:00:00.000Z")
  else None.

(** ** The views and handlers of the application

    [App.tsx] (the lists and counts it derives from the store, the delete
    confirmation, the two stored preferences), the task card
    ([isOverdue], [categories]) and the task form ([parsedCategories], the
    values it shows for the task being edited, [handleSubmit]). *)

(** *** [Array.prototype.sort] *)

Module JsArray.

(** [x] put into a sorted array, before the first element that the
    comparator does not put before it. *)
Fixpoint insert_by {A : Type} (compareFn : A -> A -> Z) (x : A)
    (sorted : list A) : list A :=
  match sorted with
  | [] => [x]
  | y :: rest =>
      if compareFn x y <=? 0 then x :: sorted
      else y :: insert_by compareFn x rest
  end.

(** [array.sort(compareFn)].  The sort is stable, so that for a comparator
    that orders the elements consistently the result is determined: it is
    the one of this insertion sort.  For another comparator the language
    leaves the order to the implementation; this is one such order. *)
Definition sort {A : Type} (compareFn : A -> A -> Z) (array : list A) : list A :=
  foldr (insert_by compareFn) [] array.

End JsArray.

(** *** The lists and counts of [App.tsx] (lines 73-105) *)

(** [a.order - b.order] is a difference of Numbers: it has the sign of
    the difference of the integers they hold. *)
Definition activeTodos (todos : list TodoItem) : list TodoItem :=
  JsArray.sort (fun a b => order a - order b)
    (filter (fun todo => completed todo = false) todos).

(** [!text] for a property [text?: string | null]. *)
Definition present (text : Nullable string) : option string :=
  match text with
  | Value s => if truthy s then Some s else None
  | Null | Undefined => None
  end.

Section Dates.

(** [new Date(text).getTime()], [None] for [NaN]. *)
Variable date_getTime : string -> option Z.

(** [new Date(text)] after [setHours(0, 0, 0, 0)]: the time of the start
    of its day in local time, [None] for [NaN]; and the start of the
    current day, the same for the count and for the cards. *)
Variable startOfDay : string -> option Z.
Variable today : Z.

(** The comparator of [completedTodos]; a [NaN] stands for 0 in a sort. *)
Definition byCompletedAt (a b : TodoItem) : Z :=
  match present (completedAt a), present (completedAt b) with
  | Some atA, Some atB =>
      match date_getTime atB, date_getTime atA with
      | Some timeB, Some timeA => timeB - timeA
      | _, _ => 0
      end
  | _, _ => 0
  end.

Definition completedTodos (todos : list TodoItem) : list TodoItem :=
  JsArray.sort byCompletedAt
    (filter (fun todo => completed todo = true) todos).

(** [due.getTime() < today.getTime()], false for a [NaN]. *)
Definition before_today (due : string) : bool :=
  match startOfDay due with
  | Some time => time <? today
  | None => false
  end.

(** The predicate of the filter of [overdueCount]. *)
Definition due_before_today (todo : TodoItem) : bool :=
  match dueDate todo with
  | Some due => truthy due && before_today due
  | None => false
  end.

Definition overdueCount (todos : list TodoItem) : nat :=
  length (filter (fun todo => due_before_today todo = true) (activeTodos todos)).

(** [isOverdue] of the task card ([TaskCard.tsx], lines 44-48). *)
Definition isOverdue (todo : TodoItem) : bool :=
  match dueDate todo with
  | Some due => truthy due && negb (completed todo) && before_today due
  | None => false
  end.

End Dates.

(** *** Category labels *)

(** [text.split(',').map((cat) => cat.trim()).filter(Boolean)]: the
    expression of [parsedCategories] in the form, of [categories] in the
    card and of the first steps of [normalizeCategories]. *)
Definition labels (text : string) : list string :=
  List.filter truthy (List.map trim (split ","%char text)).

(** [categories] of the task card ([TaskCard.tsx], lines 49-54). *)
Definition categories (todo : TodoItem) : list string :=
  match category todo with
  | Some text => if truthy text then labels text else []
  | None => []
  end.

(** *** The task form ([TaskForm.tsx], lines 24-55) *)

Definition emptyState : TaskFormValues :=
  mkTaskFormValues EmptyString EmptyString EmptyString medium EmptyString.

(** [text ?? ''] *)
Definition or_empty (text : option string) : string :=
  match text with
  | Some s => s
  | None => EmptyString
  end.

(** The values that the effect on [editingTodo] puts into the form. *)
Definition editing_values (editingTodo : option TodoItem) : TaskFormValues :=
  match editingTodo with
  | Some editing =>
      mkTaskFormValues (title editing)
                       (or_empty (description editing))
                       (or_empty (category editing))
                       (priority editing)
                       (or_empty (substring 0 10 <$> dueDate editing))
  | None => emptyState
  end.

(** *** The delete confirmation ([App.tsx], lines 28-29 and 174-194) *)

(** The state of the component that the delete handlers read and set. *)
Record DeleteDialog := mkDeleteDialog {
  pendingDelete : option TodoItem;
  dontAskAgain : bool;
  skipDeleteConfirm : bool
}.

Definition requestDelete (w : Calls) (wanted : string)
    (app : DeleteDialog * TodosState) : DeleteDialog * TodosState :=
  let '(dialog, state) := app in
  match find_by_id wanted (items state) with
  | None => app
  | Some (_, todo) =>
      if skipDeleteConfirm dialog then (dialog, deleteTodo w wanted state)
      else (mkDeleteDialog (Some todo) false (skipDeleteConfirm dialog), state)
  end.

Definition confirmDelete (w : Calls)
    (app : DeleteDialog * TodosState) : DeleteDialog * TodosState :=
  let '(dialog, state) := app in
  match pendingDelete dialog with
  | None => app
  | Some pending =>
      (mkDeleteDialog None (dontAskAgain dialog)
         (if dontAskAgain dialog then true else skipDeleteConfirm dialog),
       deleteTodo w (id pending) state)
  end.

Definition cancelDelete (app : DeleteDialog * TodosState)
    : DeleteDialog * TodosState :=
  let '(dialog, state) := app in
  (mkDeleteDialog None (dontAskAgain dialog) (skipDeleteConfirm dialog), state).

(** [setDontAskAgain(event.target.checked)] of the check box. *)
Definition setDontAskAgain (checked : bool)
    (app : DeleteDialog * TodosState) : DeleteDialog * TodosState :=
  let '(dialog, state) := app in
  (mkDeleteDialog (pendingDelete dialog) checked (skipDeleteConfirm dialog), state).

(** *** The stored preference ([App.tsx], lines 30-33 and 44-47) *)

Definition SKIP_KEY : string := "todo_skip_delete_confirm".

(** The initial [skipDeleteConfirm]; nothing catches what [getItem]
    throws. *)
Definition initialSkipDeleteConfirm (window : option Storage) : Completion bool :=
  match window with
  | None => Normal false
  | Some localStorage =>
      match getItem SKIP_KEY localStorage with
      | Throw => Throw
      | Normal stored => Normal (bool_decide (stored = Some "true"))
      end
  end.

(** The effect on [skipDeleteConfirm]: the window after it, or what
    [setItem] throws. *)
Definition storeSkipDeleteConfirm (skip : bool) (window : option Storage)
    : Completion (option Storage) :=
  match window with
  | None => Normal None
  | Some localStorage =>
      match setItem SKIP_KEY (if skip then "true" else "false") localStorage with
      | Throw => Throw
      | Normal written => Normal (Some written)
      end
  end.

(** *** Notions used by the further statements *)

(** The index that [reorderActive] uses last for [wanted]: the one of its
    last occurrence in [updatedIds], counted from [index]. *)
Fixpoint last_position (index : nat) (updatedIds : list string)
    (wanted : string) : option nat :=
  match updatedIds with
  | [] => None
  | x :: rest =>
      match last_position (S index) rest wanted with
      | Some k => Some k
      | None => if decide (x = wanted) then Some index else None
      end
  end.

(** What identifies a task for good: its id and its time of creation. *)
Definition identity (todo : TodoItem) : string * string :=
  (id todo, createdAt todo).

(** [sep] does not occur in [s]. *)
Fixpoint free_of (sep : ascii) (s : string) : bool :=
  match s with
  | EmptyString => true
  | String c rest => negb (Ascii.eqb c sep) && free_of sep rest
  end.

(** A task as the form leaves it: the title trimmed and not empty, a
    description trimmed and not empty or none, the category made of labels
    joined by [", "] or none. *)
Definition normalized (todo : TodoItem) : Prop :=
  trim (title todo) = title todo
  /\ title todo ≠ EmptyString
  /\ match description todo with
     | Some d => trim d = d /\ d ≠ EmptyString
     | None => True
     end
  /\ match category todo with
     | Some c => normalizeCategories c = c /\ c ≠ EmptyString
     | None => True
     end.

(** *** Stand-ins for the dates of the examples *)

(** Days from 1970-01-01 to a day of the Gregorian calendar. *)
Definition days_from_civil (year month day : Z) : Z :=
  let y := if month <=? 2 then year - 1 else year in
  let era := y / 400 in
  let year_of_era := y - era * 400 in
  let month_from_march := if month <=? 2 then month + 9 else month - 3 in
  let day_of_year := (153 * month_from_march + 2) / 5 + day - 1 in
  let day_of_era :=
    year_of_era * 365 + year_of_era / 4 - year_of_era / 100 + day_of_year in
  era * 146097 + day_of_era - 719468.

(** The number that the [width] characters of [text] from [start] on
    write, when they are digits. *)
Definition digits_at (start width : nat) (text : string) : option Z :=
  match Json.natural 0 (substring start width text) with
  | (n, EmptyString) =>
      if (String.length (substring start width text) =? width)%nat
      then Some n else None
  | _ => None
  end.

(** A stand-in for [new Date(text).getTime()] in the examples: the time of
    a text [YYYY-MM-DDTHH:mm:ss.sssZ] as [toISOString] writes it, in
    milliseconds; any other text is taken for no date. *)
Definition iso_getTime (text : string) : option Z :=
  if negb ((String.length text =? 24)%nat
           && String.eqb (substring 4 1 text) "-"
           && String.eqb (substring 7 1 text) "-"
           && String.eqb (substring 10 1 text) "T"
           && String.eqb (substring 13 1 text) ":"
           && String.eqb (substring 16 1 text) ":"
           && String.eqb (substring 19 1 text) "."
           && String.eqb (substring 23 1 text) "Z")
  then None
  else
    year ← digits_at 0 4 text;
    month ← digits_at 5 2 text;
    day ← digits_at 8 2 text;
    hours ← digits_at 11 2 text;
    minutes ← digits_at 14 2 text;
    seconds ← digits_at 17 2 text;
    milliseconds ← digits_at 20 3 text;
    if (1 <=? month) && (month <=? 12) && (1 <=? day) && (day <=? 31)
       && (hours <? 24) && (minutes <? 60) && (seconds <? 60)
    then Some ((((days_from_civil year month day * 24 + hours) * 60 + minutes)
                * 60 + seconds) * 1000 + milliseconds)
    else None.

(** A stand-in for the start of the day of [text], for a browser whose
    time zone is UTC. *)
Definition utc_startOfDay (text : string) : option Z :=
  (fun time => time - time mod 86400000) <$> iso_getTime text.

(** The time at which a task was completed, 0 without one. *)
Definition completion_time (date_getTime : string -> option Z)
    (todo : TodoItem) : Z :=
  default 0 (present (completedAt todo) ≫= date_getTime).

(** A label: trimmed, not empty, without comma. *)
Definition label (piece : string) : Prop :=
  trim piece = piece /\ truthy piece = true /\ free_of ","%char piece = true.

(** * Properties *)

(** ** Facts about [find], the in-place update and [nextOrder] *)

Section StoreFacts.

Implicit Types (todos : list TodoItem) (todo : TodoItem) (i : nat).

Lemma find_by_id_Some wanted todos i todo :
  find_by_id wanted todos = Some (i, todo) ->
  todos !! i = Some todo /\ id todo = wanted.
Proof.
  unfold find_by_id. intros H. apply list_find_Some in H. tauto.
Qed.

Lemma find_by_id_None wanted todos :
  find_by_id wanted todos = None <-> Forall (fun item => id item ≠ wanted) todos.
Proof. unfold find_by_id. apply list_find_None. Qed.

(** Replacing a task by one with the same id does not move what [find]
    finds. *)
Lemma find_by_id_insert wanted todos i todo todo' :
  find_by_id wanted todos = Some (i, todo) ->
  id todo' = id todo ->
  find_by_id wanted (<[i:=todo']> todos) = Some (i, todo').
Proof.
  unfold find_by_id. intros H Hid.
  apply list_find_Some in H as (Hi & Hw & Hleast).
  apply list_find_Some. split_and!.
  - apply list_lookup_insert_eq. by eapply lookup_lt_Some.
  - congruence.
  - intros j y Hj Hlt. rewrite list_lookup_insert_ne in Hj by lia. eauto.
Qed.

Lemma fold_max_ge (start : Z) todos :
  start <= foldl (fun max todo => Z.max max (order todo)) start todos.
Proof.
  revert start. induction todos as [|t todos IH]; intros start; simpl; [lia|].
  specialize (IH (Z.max start (order t))). lia.
Qed.

Lemma fold_max_elem (start : Z) todos todo :
  todo ∈ todos ->
  order todo <= foldl (fun max todo => Z.max max (order todo)) start todos.
Proof.
  revert start. induction todos as [|t todos IH]; intros start Hin.
  - by apply elem_of_nil in Hin.
  - apply elem_of_cons in Hin as [->|Hin]; simpl.
    + pose proof (fold_max_ge (Z.max start (order t)) todos). lia.
    + by apply IH.
Qed.

Lemma fold_max_le (bound start : Z) todos :
  start <= bound ->
  Forall (fun todo => order todo <= bound) todos ->
  foldl (fun max todo => Z.max max (order todo)) start todos <= bound.
Proof.
  intros Hstart Hall. revert start Hstart.
  induction Hall as [|t todos Ht _ IH]; intros start Hstart; simpl; [done|].
  apply IH. lia.
Qed.

(** [x + 1] never gives less than [x], and is exact on the safe
    integers. *)
Lemma plus_one_ge (x : Z) : x <= plus_one x.
Proof.
  unfold plus_one.
  destruct (x <=? MAX_SAFE_INTEGER); [lia|].
  destruct (x <? 18014398509481984); [|lia].
  destruct (Z.even (x / 2)); lia.
Qed.

(** [2^53 - 1], [2^53], [2^53 + 2] and [2^54], plus 1. *)
Example plus_one_around_2_53 :
  plus_one <$> [9007199254740991; 9007199254740992; 9007199254740994;
                18014398509481984]
  = [9007199254740992; 9007199254740992; 9007199254740996;
     18014398509481984].
Proof. reflexivity. Qed.

Lemma plus_one_exact (x : Z) : x <= MAX_SAFE_INTEGER -> plus_one x = x + 1.
Proof.
  intros Hx. unfold plus_one.
  by destruct (Z.leb_spec x MAX_SAFE_INTEGER); [|lia].
Qed.

(** A Number that holds an integer is its own nearest Number; beyond 53
    bits it is a multiple of the distance to the next one. *)
Lemma nearest_multiple (z : Z) :
  0 < Z.log2 (Z.abs z) - 52 ->
  nearest z = z ->
  z mod 2 ^ (Z.log2 (Z.abs z) - 52) = 0.
Proof.
  intros He Hz. unfold nearest in Hz.
  destruct (Z.leb_spec (Z.log2 (Z.abs z) - 52) 0) as [|_]; [lia|].
  set (ulp := 2 ^ (Z.log2 (Z.abs z) - 52)) in *.
  assert (Hulp : 0 < ulp) by (apply Z.pow_pos_nonneg; lia).
  assert (Hmul : exists k, z = k * ulp).
  { destruct (2 * (z mod ulp) <? ulp); [eauto|].
    destruct (ulp <? 2 * (z mod ulp)); [eauto|].
    destruct (Z.even (z / ulp)); eauto. }
  apply Z.mod_divide; [lia|]. exact Hmul.
Qed.

Lemma nearest_small (z : Z) : Z.abs z < 2 ^ 53 -> nearest z = z.
Proof.
  intros Hz. unfold nearest.
  destruct (Z.leb_spec (Z.log2 (Z.abs z) - 52) 0) as [|He]; [done|].
  exfalso. destruct (Z.eq_dec (Z.abs z) 0) as [H0|H0].
  - rewrite H0 in He. simpl in He. lia.
  - assert (Z.log2 (Z.abs z) < 53); [|lia].
    apply Z.log2_lt_pow2; lia.
Qed.

(** [plus_one] is the sum with 1 rounded to the nearest Number. *)
Lemma plus_one_nearest (x : Z) :
  0 <= x -> nearest x = x -> plus_one x = nearest (x + 1).
Proof.
  intros Hpos Hx. unfold plus_one.
  destruct (Z.leb_spec x MAX_SAFE_INTEGER) as [Hsafe|Hgreat].
  { unfold MAX_SAFE_INTEGER in Hsafe.
    destruct (Z.eq_dec (x + 1) (2 ^ 53)) as [->|Hne]; [reflexivity|].
    symmetry. apply nearest_small. lia. }
  unfold MAX_SAFE_INTEGER in Hgreat.
  assert (Habs : Z.abs x = x) by lia.
  assert (Habs' : Z.abs (x + 1) = x + 1) by lia.
  destruct (Z.ltb_spec x 18014398509481984) as [Hlt|Hge].
  - assert (Hlog : Z.log2 x = 53).
    { apply Z.log2_unique; [lia|].
      change (2 ^ Z.succ 53) with 18014398509481984.
      change (2 ^ 53) with 9007199254740992. lia. }
    pose proof (nearest_multiple x) as Hmul.
    rewrite Habs, Hlog in Hmul. specialize (Hmul ltac:(lia) Hx).
    change (2 ^ (53 - 52)) with 2 in Hmul.
    assert (Hlog' : Z.log2 (x + 1) = 53).
    { apply Z.log2_unique; [lia|].
      change (2 ^ Z.succ 53) with 18014398509481984.
      change (2 ^ 53) with 9007199254740992.
      pose proof (Z.div_mod x 2 ltac:(lia)). lia. }
    unfold nearest. rewrite Habs', Hlog'.
    change (53 - 52 <=? 0) with false. change (2 ^ (53 - 52)) with 2. cbv zeta.
    assert (Hr : (x + 1) mod 2 = 1).
    { rewrite Z.add_mod, Hmul by lia. reflexivity. }
    assert (Hq : (x + 1) / 2 = x / 2).
    { pose proof (Z.div_mod x 2 ltac:(lia)). pose proof (Z.div_mod (x + 1) 2 ltac:(lia)).
      lia. }
    rewrite Hr, Hq. simpl.
    pose proof (Z.div_mod x 2 ltac:(lia)) as Hdiv. rewrite Hmul in Hdiv.
    destruct (Z.even (x / 2)); lia.
  - remember (Z.log2 x) as k eqn:Hkdef.
    assert (Hk : 54 <= k).
    { subst k. apply (Z.log2_le_mono 18014398509481984 x). lia. }
    pose proof (Z.log2_spec x ltac:(lia)) as [Hlow Hhigh].
    rewrite <- Hkdef in Hlow, Hhigh.
    pose proof (nearest_multiple x) as Hmul.
    rewrite Habs, <- Hkdef in Hmul. specialize (Hmul ltac:(lia) Hx).
    remember (2 ^ (k - 52)) as ulp eqn:Hulpdef.
    assert (Hulp : 4 <= ulp).
    { subst ulp. change 4 with (2 ^ 2). apply Z.pow_le_mono_r; lia. }
    assert (Hsucc : 2 ^ Z.succ k = 9007199254740992 * ulp).
    { subst ulp. change 9007199254740992 with (2 ^ 53).
      rewrite <- Z.pow_add_r by lia. f_equal. lia. }
    apply Z.mod_divide in Hmul as [m Hm]; [|lia].
    assert (Hlog' : Z.log2 (x + 1) = k).
    { apply Z.log2_unique; [lia|]. split; [lia|].
      rewrite Hsucc in *.
      assert (Hm' : m < 9007199254740992).
      { apply (Z.mul_lt_mono_pos_r ulp); lia. }
      pose proof (Z.mul_le_mono_nonneg_r (m + 1) 9007199254740992 ulp
                    ltac:(lia) ltac:(lia)).
      lia. }
    unfold nearest. rewrite Habs', Hlog'.
    destruct (Z.leb_spec (k - 52) 0) as [|_]; [lia|].
    rewrite <- Hulpdef. cbv zeta.
    assert (Hr : (x + 1) mod ulp = 1).
    { rewrite Hm, Z.add_comm, Z.mod_add by lia. apply Z.mod_small. lia. }
    assert (Hq : (x + 1) / ulp = m).
    { rewrite Hm, Z.add_comm, Z.div_add by lia. rewrite Z.div_small by lia. lia. }
    rewrite Hr, Hq.
    destruct (Z.ltb_spec (2 * 1) ulp); lia.
Qed.

(** [nextOrder] is at least 1 and not below the order of any task. *)
Lemma nextOrder_ge todos todo :
  todo ∈ todos -> order todo <= nextOrder todos.
Proof.
  intros Hin. unfold nextOrder.
  pose proof (fold_max_elem 0 todos todo Hin).
  pose proof (plus_one_ge (foldl (fun max todo => Z.max max (order todo)) 0 todos)).
  lia.
Qed.

Lemma nextOrder_positive todos : 1 <= nextOrder todos.
Proof.
  unfold nextOrder.
  pose proof (fold_max_ge 0 todos).
  pose proof (plus_one_ge (foldl (fun max todo => Z.max max (order todo)) 0 todos)).
  destruct (Z.leb_spec (foldl (fun max todo => Z.max max (order todo)) 0 todos)
              MAX_SAFE_INTEGER) as [Hsafe|Hgreat].
  - rewrite plus_one_exact by done. lia.
  - unfold MAX_SAFE_INTEGER in Hgreat. lia.
Qed.

(** On safe orders [nextOrder] is the greatest order (or 0) plus 1, above
    the order of every task. *)
Lemma nextOrder_safe todos :
  safe_orders todos ->
  nextOrder todos = foldl (fun max todo => Z.max max (order todo)) 0 todos + 1.
Proof.
  intros Hsafe. unfold nextOrder. apply plus_one_exact.
  by apply fold_max_le.
Qed.

Lemma nextOrder_above todos todo :
  safe_orders todos -> todo ∈ todos -> order todo < nextOrder todos.
Proof.
  intros Hsafe Hin. rewrite nextOrder_safe by done.
  pose proof (fold_max_elem 0 todos todo Hin). lia.
Qed.

(** Assigning a task with the same order in place leaves [nextOrder] as it
    was: the order computed inside [updateTodo] and [toggleComplete] is
    the one of the collection before the call. *)
Lemma nextOrder_insert_same_order todos i todo todo' :
  todos !! i = Some todo ->
  order todo' = order todo ->
  nextOrder (<[i:=todo']> todos) = nextOrder todos.
Proof.
  unfold nextOrder. intros Hi Ho. f_equal. generalize 0.
  revert i Hi. induction todos as [|t todos IH]; intros [|i] Hi start;
    simpl in *; try done.
  - injection Hi as ->. by rewrite Ho.
  - by apply IH.
Qed.

End StoreFacts.

(** ** Unknown ids *)

(** C10.  When no task of the collection has the id, [updateTodo] and
    [toggleComplete] return before anything is assigned: the whole state,
    [lastUpdated] included, stays as it was.  [deleteTodo] has no such
    return: it sets [lastUpdated] to the time of the call whatever the
    id. *)
Theorem unknown_id_update_toggle_unchanged w wanted changes state :
  find_by_id wanted (items state) = None ->
  updateTodo w wanted changes state = state
  /\ toggleComplete w wanted state = state
  /\ lastUpdated (deleteTodo w wanted state) = Some (touched w).
Proof.
  intros Hnone. unfold updateTodo, toggleComplete. rewrite Hnone.
  split_and!; reflexivity.
Qed.

Lemma unknown_id_update_toggle_unchanged_witness :
  let changes := mkTodoChanges "Renamed" None None low Undefined (Some true) in
  updateTodo calls1 "id-9" changes (initialState seed0) = initialState seed0
  /\ toggleComplete calls1 "id-9" (initialState seed0) = initialState seed0
  /\ lastUpdated (deleteTodo calls1 "id-9" (initialState seed0))
     = Some "2026-01-02T10:00:00.001Z".
Proof.
  intros changes.
  apply (unknown_id_update_toggle_unchanged calls1 "id-9" changes (initialState seed0)).
  reflexivity.
Defined.

(** [filter] keeps the whole collection when no task has the id. *)
Lemma delete_unknown_id_items w wanted state :
  find_by_id wanted (items state) = None ->
  items (deleteTodo w wanted state) = items state.
Proof.
  intros Hnone. apply find_by_id_None in Hnone. simpl.
  induction Hnone as [|t todos Ht Hall IH]; [done|].
  rewrite filter_cons_True by done. by rewrite IH.
Qed.

(** C3, as the code has it.  For an id that matches no task, [deleteTodo]
    leaves the collection as it was and sets [lastUpdated] to the time of
    the call. *)
Theorem delete_unknown_id_touches w wanted state :
  find_by_id wanted (items state) = None ->
  items (deleteTodo w wanted state) = items state
  /\ lastUpdated (deleteTodo w wanted state) = Some (touched w).
Proof.
  intros Hnone. split; [by apply delete_unknown_id_items | reflexivity].
Qed.

Lemma delete_unknown_id_touches_witness :
  items (deleteTodo calls1 "id-9" (initialState seed0)) = items (initialState seed0)
  /\ lastUpdated (deleteTodo calls1 "id-9" (initialState seed0))
     = Some "2026-01-02T10:00:00.001Z".
Proof.
  apply (delete_unknown_id_touches calls1 "id-9" (initialState seed0)).
  reflexivity.
Defined.

(** C3 as stated fails: deleting an id that no task of the seed has
    changes [lastUpdated]. *)
Lemma delete_unknown_id_changes_lastUpdated :
  find_by_id "id-9" (items (initialState seed0)) = None
  /\ lastUpdated (deleteTodo calls1 "id-9" (initialState seed0))
     ≠ lastUpdated (initialState seed0).
Proof. split; [reflexivity | discriminate]. Qed.

(** ** Back to the end of the active queue *)

Section EndOfQueue.

Variables (w : Calls) (wanted : string) (state : TodosState).
Variables (i : nat) (todo : TodoItem).
Hypothesis Hfound : find_by_id wanted (items state) = Some (i, todo).

Lemma found_in_range : (i < length (items state))%nat.
Proof. apply find_by_id_Some in Hfound as [Hi _]. by eapply lookup_lt_Some. Qed.

Lemma toggleComplete_found :
  toggleComplete w wanted state
  = mkTodosState (<[i:=toggled w state i todo]> (items state))
                 (Some (touched w)).
Proof.
  unfold toggleComplete, toggled. rewrite Hfound. simpl.
  by destruct (completed todo).
Qed.

Lemma updateTodo_found_active changes :
  changes_completed changes = Some false ->
  updateTodo w wanted changes state
  = mkTodosState (<[i:=updated_active w state i todo changes]> (items state))
                 (Some (touched w)).
Proof.
  intros Hc. unfold updateTodo, updated_active. rewrite Hfound, Hc. reflexivity.
Qed.

(** After [<[i:=set_order (nextOrder (<[i:=t]> l)) t]> l], where [t] has
    the order of [todo], no other task has a greater order than the one
    at [i], and on safe orders every other task has a smaller one. *)
Lemma moved_last (t : TodoItem) (j : nat) other :
  order t = order todo ->
  j ≠ i ->
  <[i:=set_order (nextOrder (<[i:=t]> (items state))) t]> (items state) !! j
    = Some other ->
  order other <= nextOrder (<[i:=t]> (items state))
  /\ (safe_orders (items state) ->
      order other < nextOrder (<[i:=t]> (items state))).
Proof.
  intros Ho Hne Hj. rewrite list_lookup_insert_ne in Hj by done.
  apply find_by_id_Some in Hfound as [Hi _].
  rewrite (nextOrder_insert_same_order _ _ todo) by done.
  apply list_elem_of_lookup_2 in Hj.
  split; [by apply nextOrder_ge | intros Hsafe; by apply nextOrder_above].
Qed.

End EndOfQueue.

(** C5, as the code has it.  When a completed task becomes active again,
    through [toggleComplete] or through [updateTodo] with
    [completed: false], no other task of the collection has a greater
    order than the one it gets, and when no order of the collection is
    above [Number.MAX_SAFE_INTEGER] every other task has a smaller one. *)
Theorem uncompleted_task_order_is_greatest w wanted state i todo :
  find_by_id wanted (items state) = Some (i, todo) ->
  completed todo = true ->
  (exists moved,
      items (toggleComplete w wanted state) !! i = Some moved
      /\ completed moved = false
      /\ forall (j : nat) other,
           j ≠ i ->
           items (toggleComplete w wanted state) !! j = Some other ->
           order other <= order moved
           /\ (safe_orders (items state) -> order other < order moved))
  /\ (forall changes,
        changes_completed changes = Some false ->
        exists moved,
          items (updateTodo w wanted changes state) !! i = Some moved
          /\ completed moved = false
          /\ forall (j : nat) other,
               j ≠ i ->
               items (updateTodo w wanted changes state) !! j = Some other ->
               order other <= order moved
               /\ (safe_orders (items state) -> order other < order moved)).
Proof.
  intros Hfound Hdone.
  pose proof (found_in_range wanted state i todo Hfound) as Hlt.
  split.
  - rewrite (toggleComplete_found w wanted state i todo Hfound).
    unfold toggled. rewrite Hdone. simpl.
    eexists. split_and!.
    + by apply list_lookup_insert_eq.
    + reflexivity.
    + intros j other Hne Hj. simpl.
      by eapply (moved_last wanted state i todo Hfound).
  - intros changes Hc.
    rewrite (updateTodo_found_active w wanted state i todo Hfound changes Hc).
    unfold updated_active. simpl.
    eexists. split_and!.
    + by apply list_lookup_insert_eq.
    + reflexivity.
    + intros j other Hne Hj. simpl.
      by eapply (moved_last wanted state i todo Hfound).
Qed.

(** Three tasks with the orders 1, 2 and 3, the first one completed: made
    active again it has an order above the ones of the two others. *)
Lemma uncompleted_task_order_is_greatest_witness :
  let first :=
    mkTodoItem "a" "Water the plants" None None medium None true
               (Value "2026-01-02T09:00:00.000Z") "2026-01-01T09:00:00.000Z" 1 in
  let other n o :=
    mkTodoItem n "task" None None medium None false Null
               "2026-01-01T09:00:00.000Z" o in
  let state := mkTodosState [first; other "b" 2; other "c" 3] None in
  let changes :=
    mkTodoChanges "Water the plants" None None medium Undefined (Some false) in
  (exists moved,
      items (toggleComplete calls1 "a" state) !! 0%nat = Some moved
      /\ completed moved = false
      /\ forall (j : nat) other,
           j ≠ 0%nat ->
           items (toggleComplete calls1 "a" state) !! j = Some other ->
           order other < order moved)
  /\ (exists moved,
        items (updateTodo calls1 "a" changes state) !! 0%nat = Some moved
        /\ completed moved = false
        /\ forall (j : nat) other,
             j ≠ 0%nat ->
             items (updateTodo calls1 "a" changes state) !! j = Some other ->
             order other < order moved).
Proof.
  intros first other state changes.
  assert (Hsafe : safe_orders (items state)).
  { repeat constructor; discriminate. }
  destruct (uncompleted_task_order_is_greatest calls1 "a" state 0 first)
    as [Htoggle Hupdate]; [reflexivity | reflexivity |].
  split.
  - destruct Htoggle as (moved & Hmoved & Hactive & Hothers).
    exists moved. split_and!; [done | done |].
    intros j y Hne Hj. by apply (Hothers j y Hne Hj).
  - destruct (Hupdate changes) as (moved & Hmoved & Hactive & Hothers);
      [reflexivity|].
    exists moved. split_and!; [done | done |].
    intros j y Hne Hj. by apply (Hothers j y Hne Hj).
Defined.

(** C5 as stated fails.  A collection with a completed task and an active
    one whose order is [2^53]: [max + 1] is [2^53 + 1], which is no Number,
    and rounds to [2^53].  The task made active again, by [toggleComplete]
    as by [updateTodo], gets the order [2^53] of the other task, not a
    greater one. *)
Lemma uncompleted_task_order_ties_at_2_53 :
  let done :=
    mkTodoItem "a" "Water the plants" None None medium None true
               (Value "2026-01-02T09:00:00.000Z") "2026-01-01T09:00:00.000Z" 1 in
  let big :=
    mkTodoItem "b" "Last" None None medium None false Null
               "2026-01-01T09:00:00.000Z" 9007199254740992 in
  let state := mkTodosState [done; big] None in
  let changes :=
    mkTodoChanges "Water the plants" None None medium Undefined (Some false) in
  find_by_id "a" (items state) = Some (0%nat, done)
  /\ completed done = true
  /\ (exists moved,
        items (toggleComplete calls1 "a" state) = [moved; big]
        /\ completed moved = false
        /\ order moved = order big
        /\ ~ order big < order moved)
  /\ (exists moved,
        items (updateTodo calls1 "a" changes state) = [moved; big]
        /\ completed moved = false
        /\ order moved = order big
        /\ ~ order big < order moved).
Proof.
  split_and!; try reflexivity; eexists; (split_and!; [reflexivity..|]);
    vm_compute; discriminate.
Qed.

(** The example of the specification: active tasks with orders 1, 2, 3;
    the first one completed, then made active again, has order 4. *)
Example complete_then_uncomplete_first :
  let active n o :=
    mkTodoItem n "task" None None medium None false Null "2026-01-01T09:00:00.000Z" o in
  let state := mkTodosState [active "a" 1; active "b" 2; active "c" 3] None in
  order <$> items (toggleComplete calls2 "a" (toggleComplete calls1 "a" state))
  = [4; 2; 3].
Proof. reflexivity. Qed.

(** ** [updateTodo] with [completed] *)

(** C4, as the code has it.  For a task of the store and an update that
    passes [completed], the order is reassigned to [nextOrder] of the
    collection whenever the value passed is [false], whether the task was
    completed or active before, and is left as it was when the value
    passed is [true].  [nextOrder] is not below the task's previous order;
    when no order of the collection is above [Number.MAX_SAFE_INTEGER] it
    is the greatest order (or 0) plus 1, above the task's previous
    order. *)
Theorem update_completed_order w wanted changes state i todo c :
  find_by_id wanted (items state) = Some (i, todo) ->
  changes_completed changes = Some c ->
  exists after,
    items (updateTodo w wanted changes state) !! i = Some after
    /\ completed after = c
    /\ order after = (if c then order todo else nextOrder (items state))
    /\ order todo <= nextOrder (items state)
    /\ (safe_orders (items state) ->
        nextOrder (items state)
        = foldl (fun max item => Z.max max (order item)) 0 (items state) + 1
        /\ order todo < nextOrder (items state)).
Proof.
  intros Hfound Hc.
  pose proof (found_in_range wanted state i todo Hfound) as Hlt.
  pose proof (find_by_id_Some _ _ _ _ Hfound) as [Hi _].
  assert (Hin : todo ∈ items state) by by eapply list_elem_of_lookup_2.
  unfold updateTodo. rewrite Hfound, Hc. simpl.
  eexists. split; [by apply list_lookup_insert_eq|].
  split; [by destruct c|]. split.
  { destruct c; simpl; [reflexivity|].
    by apply (nextOrder_insert_same_order _ _ todo). }
  split; [by apply nextOrder_ge|].
  intros Hsafe. split; [by apply nextOrder_safe | by apply nextOrder_above].
Qed.

(** The seed's first task (active, order 1) updated with
    [completed: false]. *)
Lemma update_completed_order_witness :
  let changes :=
    mkTodoChanges "Plan sprint backlog" None None high Undefined (Some false) in
  exists after,
    items (updateTodo calls1 "id-1" changes (initialState seed0)) !! 0%nat = Some after
    /\ completed after = false
    /\ order after = 4
    /\ 1 < order after.
Proof.
  intros changes.
  destruct (update_completed_order calls1 "id-1" changes (initialState seed0) 0
              (mkTodoItem "id-1" "Plan sprint backlog"
                 (Some "Review tasks for the week and assign ownership.")
                 (Some "Work") high (Some "2026-01-03T09:00:00.000Z")
                 false Null "2026-01-01T09:00:00.000Z" 1) false)
    as (after & Hafter & Hactive & Horder & _ & Hsafe);
    [reflexivity | reflexivity |].
  destruct Hsafe as [Hnext Habove]; [repeat constructor; discriminate|].
  exists after. rewrite Horder. split_and!; [done | done | exact Hnext | exact Habove].
Defined.

(** C4 as stated fails: the seed's first task is active with order 1;
    updating it with [completed: false] is no transition from completed to
    active, and its order becomes 4. *)
Lemma update_active_task_completed_false_moves_it :
  let changes :=
    mkTodoChanges "Plan sprint backlog" None None high Undefined (Some false) in
  (completed <$> items (initialState seed0) !! 0%nat) = Some false
  /\ (order <$> items (initialState seed0) !! 0%nat) = Some 1
  /\ (order <$> items (updateTodo calls1 "id-1" changes (initialState seed0)) !! 0%nat)
     = Some 4.
Proof. split_and!; reflexivity. Qed.

(** ** [toggleComplete] twice *)

(** C6, as the code has it.  After two [toggleComplete] on a task of the
    store, [completed] is what it was and [order] is at least what it was;
    [completedAt] is [null] when the task was active before, and the time
    of the second call when it was completed before. *)
Theorem toggle_twice w1 w2 wanted state i todo :
  find_by_id wanted (items state) = Some (i, todo) ->
  exists again,
    items (toggleComplete w2 wanted (toggleComplete w1 wanted state)) !! i
      = Some again
    /\ completed again = completed todo
    /\ completedAt again = (if completed todo then Value (stamp w2) else Null)
    /\ order todo <= order again.
Proof.
  intros Hfound.
  pose proof (found_in_range wanted state i todo Hfound) as Hlt.
  pose proof (find_by_id_Some _ _ _ _ Hfound) as [Hi _].
  rewrite (toggleComplete_found w1 wanted state i todo Hfound).
  assert (Hid : id (toggled w1 state i todo) = id todo).
  { unfold toggled. by destruct (completed todo). }
  pose proof (find_by_id_insert wanted (items state) i todo _ Hfound Hid) as Hfound'.
  rewrite (toggleComplete_found w2 wanted
             (mkTodosState (<[i:=toggled w1 state i todo]> (items state))
                           (Some (touched w1)))
             i _ Hfound'). simpl.
  eexists. split.
  { apply list_lookup_insert_eq. by rewrite length_insert. }
  unfold toggled. destruct (completed todo) eqn:Hdone; simpl.
  - split_and!; try reflexivity.
    rewrite (nextOrder_insert_same_order _ _ todo) by done.
    apply nextOrder_ge. by eapply list_elem_of_lookup_2.
  - split_and!; try reflexivity.
    rewrite list_insert_insert_eq.
    rewrite (nextOrder_insert_same_order _ _ todo) by done.
    apply nextOrder_ge. by eapply list_elem_of_lookup_2.
Qed.

(** The seed's second task (active, order 2), toggled twice. *)
Lemma toggle_twice_witness :
  exists again,
    items (toggleComplete calls2 "id-2"
             (toggleComplete calls1 "id-2" (initialState seed0))) !! 1%nat
      = Some again
    /\ completed again = false
    /\ completedAt again = Null
    /\ 2 <= order again.
Proof.
  apply (toggle_twice calls1 calls2 "id-2" (initialState seed0) 1
           (mkTodoItem "id-2" "Grocery run"
              (Some "Ingredients for the weekend dinner party.")
              (Some "Personal") medium (Some "2026-01-05T09:00:00.000Z")
              false Null "2026-01-01T09:00:00.000Z" 2)).
  reflexivity.
Defined.

(** C6 as stated fails for a completed task: the seed's third task,
    toggled twice, is completed again with the time of the second call as
    [completedAt], not [null]. *)
Lemma toggle_twice_completed_task_has_completedAt :
  (completed <$> items (initialState seed0) !! 2%nat) = Some true
  /\ (completedAt <$>
        items (toggleComplete calls2 "id-3"
                 (toggleComplete calls1 "id-3" (initialState seed0))) !! 2%nat)
     = Some (Value "2026-01-02T11:00:00.000Z")
  /\ (completedAt <$>
        items (toggleComplete calls2 "id-3"
                 (toggleComplete calls1 "id-3" (initialState seed0))) !! 2%nat)
     ≠ Some Null.
Proof. split_and!; [reflexivity | reflexivity | discriminate]. Qed.

(** ** [completedAt] and [completed] *)

Section CompletionInvariant.

Local Abbreviation consistent := (Forall completion_consistent).

Lemma consistent_seed seed : consistent (starterTodos seed).
Proof. repeat constructor. Qed.

Lemma consistent_addTodo w payload state :
  consistent (items state) -> consistent (items (addTodo w payload state)).
Proof.
  intros H. simpl. apply Forall_app. split; [done|]. by repeat constructor.
Qed.

Lemma consistent_updateTodo w wanted changes state :
  consistent (items state) -> consistent (items (updateTodo w wanted changes state)).
Proof.
  intros H. unfold updateTodo.
  destruct (find_by_id wanted (items state)) as [[i todo]|] eqn:Hfound; [|done].
  apply find_by_id_Some in Hfound as [Hi _].
  pose proof (Forall_lookup_1 _ _ _ _ H Hi) as Htodo.
  simpl. apply Forall_insert; [done|].
  destruct (changes_completed changes) as [[|]|]; simpl; try reflexivity.
  exact Htodo.
Qed.

Lemma consistent_toggleComplete w wanted state :
  consistent (items state) -> consistent (items (toggleComplete w wanted state)).
Proof.
  intros H. unfold toggleComplete.
  destruct (find_by_id wanted (items state)) as [[i todo]|] eqn:Hfound; [|done].
  simpl. apply Forall_insert; [done|].
  by destruct (completed todo).
Qed.

Lemma consistent_deleteTodo w wanted state :
  consistent (items state) -> consistent (items (deleteTodo w wanted state)).
Proof.
  intros H. simpl. apply Forall_forall. intros todo Hin.
  apply list_elem_of_filter in Hin as [_ Hin].
  by eapply Forall_forall in H.
Qed.

Lemma consistent_reorder_from index updatedIds todos :
  consistent todos -> consistent (reorder_from index updatedIds todos).
Proof.
  revert index todos.
  induction updatedIds as [|wanted rest IH]; intros index todos H; [done|].
  simpl. apply IH.
  destruct (find_by_id wanted todos) as [[i todo]|] eqn:Hfound; [|done].
  apply find_by_id_Some in Hfound as [Hi _].
  apply Forall_insert; [done|].
  exact (Forall_lookup_1 _ _ _ _ H Hi).
Qed.

Lemma consistent_todosReducer w action state :
  consistent (items state) -> consistent (items (todosReducer w action state)).
Proof.
  destruct action.
  - apply consistent_addTodo.
  - apply consistent_updateTodo.
  - apply consistent_toggleComplete.
  - apply consistent_deleteTodo.
  - simpl. apply consistent_reorder_from.
Qed.

End CompletionInvariant.

(** C2.  In every state that the store reaches from its initial state by
    [addTodo], [updateTodo], [toggleComplete], [deleteTodo] and
    [reorderActive], a task has a [completedAt] exactly when it is
    [completed]. *)
Theorem completedAt_iff_completed seed state :
  reachable seed state ->
  forall todo,
    todo ∈ items state ->
    (exists time, completedAt todo = Value time) <-> completed todo = true.
Proof.
  intros Hreach.
  assert (Hall : Forall completion_consistent (items state)).
  { induction Hreach as [|w action state _ IH].
    - apply consistent_seed.
    - by apply consistent_todosReducer. }
  intros todo Hin. eapply Forall_forall in Hall; [|done].
  unfold completion_consistent, has_completedAt in Hall.
  destruct (completedAt todo) as [| |time]; rewrite <- Hall; split;
    try discriminate; try (intros [? ?]; discriminate); eauto.
Qed.

(** The seed after completing its first task, renaming its second one and
    deleting the third: the first task is completed and has a
    [completedAt]. *)
Lemma completedAt_iff_completed_witness :
  let state :=
    todosReducer calls2 (DeleteTodo "id-3")
      (todosReducer calls2
         (UpdateTodo "id-2"
            (mkTodoChanges "Groceries" None None low Undefined None))
         (todosReducer calls1 (ToggleComplete "id-1") (initialState seed0))) in
  let first :=
    mkTodoItem "id-1" "Plan sprint backlog"
      (Some "Review tasks for the week and assign ownership.")
      (Some "Work") high (Some "2026-01-03T09:00:00.000Z")
      true (Value "2026-01-02T10:00:00.000Z") "2026-01-01T09:00:00.000Z" 1 in
  items state !! 0%nat = Some first
  /\ ((exists time, completedAt first = Value time) <-> completed first = true).
Proof.
  intros state first.
  assert (Hfirst : items state !! 0%nat = Some first) by reflexivity.
  split; [exact Hfirst|].
  apply (completedAt_iff_completed seed0 state).
  - repeat apply reachable_step. apply reachable_init.
  - by eapply list_elem_of_lookup_2.
Defined.

(** ** Distinct ids *)

Section DistinctIds.



(** An assignment to a task in place keeps the ids when it keeps the
    task's id. *)
Lemma ids_insert (todos : list TodoItem) (i : nat) todo todo' :
  todos !! i = Some todo ->
  id todo' = id todo ->
  id <$> <[i:=todo']> todos = id <$> todos.
Proof.
  intros Hi Hid. rewrite list_fmap_insert. apply list_insert_id.
  by rewrite list_lookup_fmap, Hi, Hid.
Qed.



Lemma ids_reorder_from index updatedIds todos :
  id <$> reorder_from index updatedIds todos = id <$> todos.
Proof.
  revert index todos.
  induction updatedIds as [|wanted rest IH]; intros index todos; [done|].
  simpl. rewrite IH.
  destruct (find_by_id wanted todos) as [[i todo]|] eqn:Hfound; [|done].
  apply find_by_id_Some in Hfound as [Hi _].
  by apply (ids_insert _ _ todo).
Qed.





End DistinctIds.



(** Two [addTodo] on the seed, [nanoid()] returning "id-4" then "id-5":
    five tasks, five ids. *)
Example add_twice_ids :
  let payload := mkCreateTodoPayload "Buy milk" None None medium Undefined in
  ids (add_all [(calls1, payload); (calls2, payload)] (initialState seed0))
  = ["id-1"; "id-2"; "id-3"; "id-4"; "id-5"].
Proof. reflexivity. Qed.

(** ** Blank titles *)

(** C1, as the code has it.  The reducers take the title as it is given:
    [addTodo] creates a task with it and [updateTodo] assigns it, blank or
    not.  The guard and the trimming are in [handleFormSubmit], which is
    what calls them: a form whose title is empty after trimming
    dispatches nothing, so the store state stays as it is, when adding as
    when editing; a form with another title, when adding, creates a task
    whose title is the title of the form without its leading and trailing
    white space. *)
Theorem blank_title_guard toISO w editing values state :
  (trim (values_title values) = EmptyString ->
   submit toISO w editing values state = Normal state)
  /\ (trim (values_title values) ≠ EmptyString ->
      values_dueDate values = EmptyString
      \/ is_Some (toISO (values_dueDate values)) ->
      exists created,
        submit toISO w None values state
        = Normal (mkTodosState (items state ++ [created]) (Some (touched w)))
        /\ title created = trim (values_title values))
  /\ (forall payload,
        exists created,
          items (addTodo w payload state) = (items state ++ [created])%list
          /\ title created = payload_title payload)
  /\ (forall wanted changes i todo,
        find_by_id wanted (items state) = Some (i, todo) ->
        exists after,
          items (updateTodo w wanted changes state) !! i = Some after
          /\ title after = changes_title changes).
Proof.
  split_and!.
  - intros Hblank. unfold submit, handleFormSubmit. by rewrite Hblank.
  - intros Htitle Hdate. unfold submit, handleFormSubmit.
    destruct (trim (values_title values)) as [|c rest] eqn:Ht; [done|]. simpl.
    destruct Hdate as [Hdate|[iso Hdate]].
    + rewrite Hdate. simpl. eexists. split; reflexivity.
    + rewrite Hdate.
      destruct (truthy (values_dueDate values)); simpl;
        eexists; split; reflexivity.
  - intros payload. eexists. split; reflexivity.
  - intros wanted changes i todo Hfound.
    pose proof (found_in_range wanted state i todo Hfound) as Hlt.
    unfold updateTodo. rewrite Hfound. simpl.
    eexists. split; [by apply list_lookup_insert_eq|].
    by destruct (changes_completed changes) as [[|]|].
Qed.

Lemma blank_title_guard_witness :
  let blank := mkTaskFormValues "   " "notes" "Home" medium EmptyString in
  let milk := mkTaskFormValues " Buy milk " "2 litres" "Home, Food" medium "2026-01-05" in
  submit date_input_toISOString calls1 None blank (initialState seed0)
    = Normal (initialState seed0)
  /\ exists created,
       submit date_input_toISOString calls1 None milk (initialState seed0)
       = Normal (mkTodosState (items (initialState seed0) ++ [created])
                              (Some "2026-01-02T10:00:00.001Z"))
       /\ title created = "Buy milk".
Proof.
  intros blank milk. split.
  - apply (blank_title_guard date_input_toISOString calls1 None blank
             (initialState seed0)).
    reflexivity.
  - apply (blank_title_guard date_input_toISOString calls1 None milk
             (initialState seed0)).
    + discriminate.
    + right. eexists. reflexivity.
Defined.

(** C1 as stated fails on the reducers: on the seed, [addTodo] with the
    title of two spaces creates a fourth task, [updateTodo] with that
    title assigns it to the first task, and [addTodo] with " Buy milk "
    creates a task with the spaces kept. *)
Lemma reducers_take_the_title_as_given :
  let blank := mkCreateTodoPayload "  " None None medium Undefined in
  let milk := mkCreateTodoPayload " Buy milk " None None medium Undefined in
  let changes := mkTodoChanges "  " None None high Undefined None in
  trim "  " = EmptyString
  /\ items (addTodo calls1 blank (initialState seed0)) ≠ items (initialState seed0)
  /\ length (items (addTodo calls1 blank (initialState seed0))) = 4%nat
  /\ items (updateTodo calls1 "id-1" changes (initialState seed0)) !! 0%nat
     ≠ items (initialState seed0) !! 0%nat
  /\ (title <$> items (addTodo calls1 milk (initialState seed0)) !! 3%nat)
     = Some " Buy milk "
  /\ trim " Buy milk " = "Buy milk".
Proof. split_and!; try reflexivity; discriminate. Qed.

(** ** Loading *)

(** C7, as the code has it.  [loadState] returns [undefined], without
    throwing, exactly when there is no browser, reading the slot throws,
    the slot is missing or empty, or its content is not JSON; the store
    then starts from the seed.  Content that is JSON is returned as
    [JSON.parse] gives it, whatever its shape. *)
Theorem loadState_undefined parse seed window :
  (nothing_to_load parse window <-> loadState parse window = None)
  /\ (nothing_to_load parse window ->
      store_todos seed (loadState parse window)
      = Normal (TodosState_to_json (initialState seed)))
  /\ (forall localStorage serialized parsed,
        window = Some localStorage ->
        getItem STORAGE_KEY localStorage = Normal (Some serialized) ->
        serialized ≠ EmptyString ->
        parse serialized = Normal parsed ->
        loadState parse window = Some parsed).
Proof.
  assert (Hto : nothing_to_load parse window -> loadState parse window = None).
  { intros [|ls Hget|ls Hget|ls Hget|ls text Hget Hparse]; simpl.
    - reflexivity.
    - by rewrite Hget.
    - by rewrite Hget.
    - by rewrite Hget.
    - rewrite Hget, Hparse. by destruct (truthy text). }
  split_and!.
  - split; [exact Hto|].
    unfold loadState. destruct window as [ls|]; [|constructor].
    destruct (getItem STORAGE_KEY ls) as [[text|]|] eqn:Hget;
      [| intros _; by apply absent | intros _; by apply unreadable].
    destruct text as [|c rest]; simpl; [intros _; by apply empty|].
    destruct (parse (String c rest)) eqn:Hparse; [done|].
    intros _. by eapply unparseable.
  - intros Hnothing. by rewrite (Hto Hnothing).
  - intros ls text parsed -> Hget Htext Hparse. simpl.
    rewrite Hget. destruct text; [done|]. simpl. by rewrite Hparse.
Qed.

(** A slot whose content is not JSON. *)
Lemma loadState_undefined_witness :
  let window := Some (mkStorage false 5000000 [(STORAGE_KEY, "not json")]) in
  loadState Json.parse window = None
  /\ store_todos seed0 (loadState Json.parse window)
     = Normal (TodosState_to_json (initialState seed0)).
Proof.
  intros window.
  assert (Hnothing : nothing_to_load Json.parse window).
  { apply (unparseable _ _ "not json"); reflexivity. }
  destruct (loadState_undefined Json.parse seed0 window) as (Hiff & Hseed & _).
  split; [by apply Hiff | by apply Hseed].
Defined.

(** C7 as stated fails for content that is JSON of another shape: with
    [{"todos":42}] in the slot, [loadState] returns the parsed object,
    which does not have the shape of a persisted state, and the [todos] of
    the store is 42, not the seed. *)
Lemma loadState_returns_json_of_any_shape :
  let serialized := "{" ++ Json.quote "todos" ++ ":42}" in
  let window := Some (mkStorage false 5000000 [(STORAGE_KEY, serialized)]) in
  loadState Json.parse window = Some (JObject [("todos", JNumber 42)])
  /\ as_PersistedState (JObject [("todos", JNumber 42)]) = None
  /\ store_todos seed0 (loadState Json.parse window) = Normal (JNumber 42)
  /\ store_todos seed0 (loadState Json.parse window)
     ≠ Normal (TodosState_to_json (initialState seed0)).
Proof. split_and!; try reflexivity; discriminate. Qed.

(** ** What [Json.stringify] writes, [Json.parse] reads back *)

Lemma append_assoc (a b c : string) : (a ++ b) ++ c = a ++ (b ++ c).
Proof.
  induction a as [|x a IH]; [done|].
  change (String x ((a ++ b) ++ c) = String x (a ++ b ++ c)). by rewrite IH.
Qed.

Lemma length_append (a b : string) :
  String.length (a ++ b) = (String.length a + String.length b)%nat.
Proof.
  induction a as [|x a IH]; [done|].
  change (S (String.length (a ++ b))
          = S (String.length a + String.length b)%nat). by rewrite IH.
Qed.

(** An escaped code unit is read as the code unit. *)
Lemma string_body_escape c tail :
  Json.string_body (Json.escape c ++ tail)
  = match Json.string_body tail with
    | Some (body, after) => Some (String c body, after)
    | None => None
    end.
Proof. destruct c as [[] [] [] [] [] [] [] []]; reflexivity. Qed.

(** A quoted string is read back. *)
Lemma string_body_quoted s rest :
  Json.string_body (Json.escape_all s ++ Json.quote_mark ++ rest) = Some (s, rest).
Proof.
  induction s as [|c s IH]; [reflexivity|].
  change (Json.escape_all (String c s)) with (Json.escape c ++ Json.escape_all s).
  by rewrite append_assoc, string_body_escape, IH.
Qed.

(** [Json.digits] writes the decimal digits that [Json.natural] reads. *)
Lemma digits_append fuel n acc rest :
  Json.digits fuel n acc ++ rest = Json.digits fuel n (acc ++ rest).
Proof.
  revert n acc. induction fuel as [|fuel IH]; intros n acc; simpl; [done|].
  destruct (n / 10 =? 0)%N; [done|]. by rewrite IH.
Qed.

Lemma digit_cases (P : N -> Prop) :
  P 0%N -> P 1%N -> P 2%N -> P 3%N -> P 4%N -> P 5%N -> P 6%N -> P 7%N ->
  P 8%N -> P 9%N ->
  forall d, (d < 10)%N -> P d.
Proof.
  intros H0 H1 H2 H3 H4 H5 H6 H7 H8 H9 d Hd.
  rewrite <- (N2Nat.id d).
  assert (Hk : (N.to_nat d < 10)%nat) by lia.
  revert Hk. generalize (N.to_nat d). intros k Hk.
  do 10 (destruct k as [|k]; [assumption|]). lia.
Qed.

Lemma natural_digit a (d : N) rest :
  (d < 10)%N ->
  Json.natural a (String (ascii_of_N (48 + d)) rest)
  = Json.natural (10 * a + Z.of_N d) rest.
Proof.
  revert d. apply digit_cases; reflexivity.
Qed.

Lemma digits_natural fuel : forall n acc a,
  (n < 2 ^ N.of_nat fuel)%N ->
  exists k : Z,
    (0 <= k)
    /\ Json.natural a (Json.digits fuel n acc)
       = Json.natural (a * 10 ^ k + Z.of_N n) acc.
Proof.
  induction fuel as [|fuel IH]; intros n acc a Hn.
  - exists 0. simpl in *. assert (n = 0%N) as -> by lia. split; [lia|].
    f_equal. lia.
  - simpl. destruct (N.eqb_spec (n / 10) 0) as [Hq|Hq].
    + exists 1. split; [lia|]. rewrite natural_digit by (apply N.mod_lt; lia).
      f_equal. apply N.div_small_iff in Hq; [|lia].
      rewrite N.mod_small by done. lia.
    + destruct (IH (n / 10)%N (String (ascii_of_N (48 + n mod 10)) acc) a)
        as (k & Hk & ->).
      { rewrite Nat2N.inj_succ, N.pow_succ_r' in Hn.
        apply N.Div0.div_lt_upper_bound. lia. }
      exists (k + 1). split; [lia|].
      rewrite natural_digit by (apply N.mod_lt; lia). f_equal.
      rewrite Z.pow_add_r by lia.
      pose proof (N.div_mod n 10 ltac:(lia)) as Hdm.
      rewrite N2Z.inj_div. rewrite N2Z.inj_mod.
      change (Z.of_N 10) with 10.
      pose proof (Z.div_mod (Z.of_N n) 10 ltac:(lia)). lia.
Qed.

Lemma closes_cases rest :
  closes rest = true ->
  rest = EmptyString
  \/ exists tail, rest = "," ++ tail \/ rest = "]" ++ tail \/ rest = "}" ++ tail.
Proof.
  destruct rest as [|c tail]; [by left|]. intros H. right. exists tail.
  unfold closes in H. rewrite <- (ascii_nat_embedding c).
  destruct (Nat.eqb_spec (nat_of_ascii c) 44) as [->|_]; [by left|].
  destruct (Nat.eqb_spec (nat_of_ascii c) 93) as [->|_]; [by right; left|].
  destruct (Nat.eqb_spec (nat_of_ascii c) 125) as [->|_]; [by right; right|].
  done.
Qed.

Ltac closes_cases H :=
  apply closes_cases in H as [->|[? [->|[->| ->]]]].

Lemma natural_closes a rest : closes rest = true -> Json.natural a rest = (a, rest).
Proof. intros H. closes_cases H; reflexivity. Qed.

Lemma digits_S fuel n acc :
  Json.digits (S fuel) n acc
  = if (n / 10 =? 0)%N then String (ascii_of_N (48 + n mod 10)) acc
    else Json.digits fuel (n / 10)%N (String (ascii_of_N (48 + n mod 10)) acc).
Proof. reflexivity. Qed.

(** The first digit written is no zero, but for the number zero. *)
Lemma digits_head fuel : forall n acc,
  (n < 2 ^ N.of_nat (S fuel))%N ->
  exists (d : N) tail,
    (d < 10)%N
    /\ Json.digits (S fuel) n acc = String (ascii_of_N (48 + d)) tail
    /\ (if (n =? 0)%N then d = 0%N /\ tail = acc else d ≠ 0%N).
Proof.
  induction fuel as [|fuel IH]; intros n acc Hn; rewrite digits_S.
  - assert (Hq : (n / 10 = 0)%N) by (apply N.div_small; simpl in Hn; lia).
    rewrite Hq. simpl (_ =? _)%N at 1. cbv iota.
    exists n, acc. rewrite N.mod_small by (simpl in Hn; lia).
    split_and!; [simpl in Hn; lia | done |].
    destruct (N.eqb_spec n 0); [done|done].
  - destruct (N.eqb_spec (n / 10) 0) as [Hq|Hq].
    + apply N.div_small_iff in Hq; [|lia].
      exists n, acc. rewrite N.mod_small by done.
      split_and!; [done | done |].
      destruct (N.eqb_spec n 0); [done|done].
    + destruct (IH (n / 10)%N (String (ascii_of_N (48 + n mod 10)) acc))
        as (d & tail & Hd & -> & Hz).
      { rewrite (Nat2N.inj_succ (S fuel)), N.pow_succ_r' in Hn.
        apply N.Div0.div_lt_upper_bound. lia. }
      exists d, tail. split_and!; [done..|].
      destruct (N.eqb_spec (n / 10) 0); [done|].
      destruct (N.eqb_spec n 0) as [->|]; [done|done].
Qed.

(** An integer literal is read back, up to what closes it. *)
Lemma unsigned_digits n rest :
  closes rest = true ->
  Json.unsigned (Json.digits (S (N.to_nat (N.log2 n))) n EmptyString ++ rest)
  = Some (Z.of_N n, rest).
Proof.
  intros Hrest. rewrite digits_append.
  assert (Hfuel : (n < 2 ^ N.of_nat (S (N.to_nat (N.log2 n))))%N).
  { rewrite Nat2N.inj_succ, N2Nat.id.
    destruct n as [|p]; [done|]. apply N.log2_spec. lia. }
  destruct (digits_natural _ n (EmptyString ++ rest) 0 Hfuel) as (k & _ & Hnat).
  destruct (digits_head _ n (EmptyString ++ rest) Hfuel) as (d & tail & Hd & Htext & Hz).
  rewrite Htext in *. unfold Json.unsigned.
  assert (Hdigit : Json.is_digit (ascii_of_N (48 + d)) = true).
  { clear -Hd. revert d Hd. apply digit_cases; reflexivity. }
  rewrite Hdigit, Hnat.
  replace (0 * 10 ^ k + Z.of_N n) with (Z.of_N n) by lia.
  change (EmptyString ++ rest) with rest in *.
  rewrite (natural_closes _ rest Hrest).
  assert (Hzero :
    (nat_of_ascii (ascii_of_N (48 + d)) =? 48)%nat
    && match tail with
       | String c _ => Json.is_digit c
       | EmptyString => false
       end = false).
  { destruct (N.eqb_spec n 0).
    - destruct Hz as [-> ->]. clear -Hrest. closes_cases Hrest; reflexivity.
    - clear -Hd Hz. revert Hz. pattern d. revert d Hd.
      apply digit_cases; try reflexivity. done. }
  rewrite Hzero. simpl.
  clear -Hrest. closes_cases Hrest; reflexivity.
Qed.

(** How [Json.value] goes on after the first character of a text. *)
Lemma value_digit fuel c tail :
  Json.is_digit c = true ->
  Json.value (S fuel) (String c tail)
  = '(k, after) ← Json.unsigned (String c tail); Some (JNumber k, after).
Proof.
  destruct c as [[] [] [] [] [] [] [] []]; intros H; try discriminate H;
    reflexivity.
Qed.

Lemma value_minus fuel tail :
  Json.value (S fuel) ("-" ++ tail)
  = '(k, after) ← Json.unsigned tail; Some (JNumber (- k), after).
Proof. reflexivity. Qed.

Lemma value_quote fuel tail :
  Json.value (S fuel) (Json.quote_mark ++ tail)
  = '(body, after) ← Json.string_body tail; Some (JString body, after).
Proof. reflexivity. Qed.

Lemma value_bracket fuel tail :
  Json.value (S fuel) ("[" ++ tail)
  = match Json.skip_ws tail with
    | String d after =>
        if (nat_of_ascii d =? 93)%nat then Some (JArray [], after)
        else '(elements, after) ← Json.elements fuel tail;
             Some (JArray elements, after)
    | EmptyString => None
    end.
Proof. reflexivity. Qed.

Lemma value_brace fuel tail :
  Json.value (S fuel) ("{" ++ tail)
  = match Json.skip_ws tail with
    | String d after =>
        if (nat_of_ascii d =? 125)%nat then Some (JObject [], after)
        else '(members, after) ← Json.members fuel tail;
             Some (JObject members, after)
    | EmptyString => None
    end.
Proof. reflexivity. Qed.

Lemma elements_S fuel s :
  Json.elements (S fuel) s
  = '(first, after) ← Json.value fuel s;
    match Json.skip_ws after with
    | String c rest =>
        if (nat_of_ascii c =? 93)%nat then Some ([first], rest)
        else if (nat_of_ascii c =? 44)%nat then
          '(more, after) ← Json.elements fuel rest; Some (first :: more, after)
        else None
    | EmptyString => None
    end.
Proof. reflexivity. Qed.

Lemma members_quote fuel tail :
  Json.members (S fuel) (Json.quote_mark ++ tail)
  = '(key, after) ← Json.string_body tail;
    match Json.skip_ws after with
    | String colon rest =>
        if (nat_of_ascii colon =? 58)%nat then
          '(v, after) ← Json.value fuel rest;
          match Json.skip_ws after with
          | String c rest =>
              if (nat_of_ascii c =? 125)%nat
              then Some ([(key, v)], rest)
              else if (nat_of_ascii c =? 44)%nat then
                '(more, after) ← Json.members fuel rest;
                Some (match member key more with
                      | Some _ => more
                      | None => (key, v) :: more
                      end, after)
              else None
          | EmptyString => None
          end
        else None
    | EmptyString => None
    end.
Proof. reflexivity. Qed.

(** The fuel that [Json.number] gives [Json.digits] covers the number. *)
Lemma number_digits_fuel n :
  (n < 2 ^ N.of_nat (S (N.to_nat (N.log2 n))))%N.
Proof.
  rewrite Nat2N.inj_succ, N2Nat.id.
  destruct n as [|p]; [done|]. apply N.log2_spec. lia.
Qed.

(** A written value starts with a character that is no white space and no
    closing bracket or brace. *)
Lemma stringify_opens v : opens (Json.stringify v).
Proof.
  destruct v as [|[]|n|s|l|m]; try (by do 2 eexists).
  simpl. unfold Json.number.
  destruct (digits_head _ (Z.to_N (Z.abs n)) EmptyString (number_digits_fuel _))
    as (d & tail & Hd & -> & _).
  destruct (n <? 0); [by do 2 eexists|].
  exists (ascii_of_N (48 + d)), tail. split; [done|].
  clear -Hd. revert d Hd. apply digit_cases; done.
Qed.

Lemma skip_ws_opens text rest :
  opens text -> Json.skip_ws (text ++ rest) = text ++ rest.
Proof.
  intros (c & tail & -> & Hws & _).
  change (String c tail ++ rest) with (String c (tail ++ rest)).
  simpl. by rewrite Hws.
Qed.

Lemma join_cons sep x y l : join sep (x :: y :: l) = x ++ sep ++ join sep (y :: l).
Proof. reflexivity. Qed.

(** The written elements of an array are read back, given that each of
    them is. *)
Lemma elements_stringify l :
  l ≠ [] ->
  Forall reads_back l ->
  foldr (fun x acc => keys_once x /\ acc) True l ->
  forall fuel rest,
    (foldr (fun x acc => S (cost x + acc)%nat) 0%nat l <= fuel)%nat ->
    Json.elements fuel (join "," (List.map Json.stringify l) ++ "]" ++ rest)
    = Some (l, rest).
Proof.
  induction l as [|x l IH]; [done|].
  intros _ Hall Hwf fuel rest Hfuel.
  apply Forall_cons in Hall as [Hx Hall]. destruct Hwf as [Hwfx Hwf].
  simpl in Hfuel. destruct fuel as [|fuel]; [lia|].
  rewrite elements_S. destruct l as [|y l].
  - change (join "," (List.map Json.stringify [x])) with (Json.stringify x).
    rewrite (Hx Hwfx) by (reflexivity || lia). reflexivity.
  - change (List.map Json.stringify (x :: y :: l))
      with (Json.stringify x :: Json.stringify y :: List.map Json.stringify l).
    rewrite join_cons, !append_assoc.
    rewrite (Hx Hwfx) by (reflexivity || lia).
    change (List.map Json.stringify (y :: l))
      with (Json.stringify y :: List.map Json.stringify l) in IH.
    cbn [mbind option_bind].
    change (Json.skip_ws ("," ++ ?t)) with ("," ++ t).
    change ("," ++ ?t) with (String ","%char t).
    cbv iota beta. change (nat_of_ascii ","%char) with 44%nat. cbn [Nat.eqb].
    rewrite IH; [reflexivity | done | done | done | lia].
Qed.

Lemma member_None key (members : list (string * json)) :
  key ∉ members.*1 -> member key members = None.
Proof.
  induction members as [|[k v] members IH]; [done|].
  rewrite fmap_cons, not_elem_of_cons. intros [Hne Hnot]. simpl.
  destruct (String.eqb_spec k key) as [->|_]; [done|]. by apply IH.
Qed.

(** The written members of an object are read back, given that each
    value is and that no key comes twice. *)
Lemma members_stringify l :
  l ≠ [] ->
  Forall (fun kv => reads_back kv.2) l ->
  NoDup l.*1 ->
  foldr (fun kv acc => keys_once kv.2 /\ acc) True l ->
  forall fuel rest,
    (foldr (fun kv acc => S (cost kv.2 + acc)%nat) 0%nat l <= fuel)%nat ->
    Json.members fuel (join "," (List.map member_text l) ++ "}" ++ rest)
    = Some (l, rest).
Proof.
  induction l as [|[k x] l IH]; [done|].
  intros _ Hall Hkeys Hwf fuel rest Hfuel.
  apply Forall_cons in Hall as [Hx Hall]. destruct Hwf as [Hwfx Hwf].
  rewrite fmap_cons in Hkeys. apply NoDup_cons in Hkeys as [Hk Hkeys].
  simpl in Hfuel, Hx, Hwfx, Hk. destruct fuel as [|fuel]; [lia|].
  destruct l as [|y l].
  - change (join "," (List.map member_text [(k, x)]))
      with ((Json.quote_mark ++ Json.escape_all k ++ Json.quote_mark)
            ++ ":" ++ Json.stringify x).
    rewrite !append_assoc, members_quote, string_body_quoted.
    cbn [mbind option_bind].
    change (Json.skip_ws (":" ++ ?t)) with (":" ++ t).
    change (":" ++ ?t) with (String ":"%char t).
    cbv iota beta. change (nat_of_ascii ":"%char) with 58%nat. cbn [Nat.eqb].
    rewrite (Hx Hwfx) by (reflexivity || lia). reflexivity.
  - change (List.map member_text ((k, x) :: y :: l))
      with (member_text (k, x) :: member_text y :: List.map member_text l).
    rewrite join_cons.
    change (member_text (k, x))
      with ((Json.quote_mark ++ Json.escape_all k ++ Json.quote_mark)
            ++ ":" ++ Json.stringify x).
    rewrite !append_assoc, members_quote, string_body_quoted.
    cbn [mbind option_bind].
    change (Json.skip_ws (":" ++ ?t)) with (":" ++ t).
    change (":" ++ ?t) with (String ":"%char t).
    cbv iota beta. change (nat_of_ascii ":"%char) with 58%nat. cbn [Nat.eqb].
    rewrite (Hx Hwfx) by (reflexivity || lia).
    cbn [mbind option_bind].
    change (Json.skip_ws ("," ++ ?t)) with ("," ++ t).
    change ("," ++ ?t) with (String ","%char t).
    cbv iota beta. change (nat_of_ascii ","%char) with 44%nat. cbn [Nat.eqb].
    change (List.map member_text (y :: l))
      with (member_text y :: List.map member_text l) in IH.
    rewrite IH; [| done | done | done | done | lia].
    cbn [mbind option_bind]. by rewrite member_None.
Qed.

Lemma opens_app a b : opens a -> opens (a ++ b).
Proof. intros (c & tail & -> & H). by exists c, (tail ++ b). Qed.

Lemma join_opens sep a l : opens a -> opens (join sep (a :: l)).
Proof. intros H. destruct l; [done|]. rewrite join_cons. by apply opens_app. Qed.

Lemma member_text_opens kv : opens (member_text kv).
Proof. by do 2 eexists. Qed.

(** Every written value is read back. *)
Lemma value_stringify v : reads_back v.
Proof.
  induction v as [|b|n|s|l IH|m IH] using json_nested_ind;
    intros Hwf fuel rest Hfuel Hrest;
    (destruct fuel as [|fuel]; [simpl in Hfuel; lia|]).
  - reflexivity.
  - by destruct b.
  - change (Json.stringify (JNumber n)) with (Json.number n).
    unfold Json.number. destruct (Z.ltb_spec n 0) as [Hneg|Hpos].
    + rewrite append_assoc, value_minus, unsigned_digits by done.
      cbn [mbind option_bind].
      assert (- Z.of_N (Z.to_N (Z.abs n)) = n) as -> by (rewrite Z2N.id; lia).
      reflexivity.
    + destruct (digits_head _ (Z.to_N (Z.abs n)) EmptyString (number_digits_fuel _))
        as (d & tail & Hd & Htext & _).
      assert (Hdigit : Json.is_digit (ascii_of_N (48 + d)) = true).
      { clear -Hd. revert d Hd. apply digit_cases; reflexivity. }
      pose proof (unsigned_digits (Z.to_N (Z.abs n)) rest Hrest) as Hback.
      rewrite Htext in *.
      change (String ?c tail ++ rest) with (String c (tail ++ rest)) in *.
      rewrite value_digit, Hback by done.
      cbn [mbind option_bind].
      assert (Z.of_N (Z.to_N (Z.abs n)) = n) as -> by (rewrite Z2N.id; lia).
      reflexivity.
  - change (Json.stringify (JString s))
      with (Json.quote_mark ++ Json.escape_all s ++ Json.quote_mark).
    by rewrite !append_assoc, value_quote, string_body_quoted.
  - change (Json.stringify (JArray l))
      with ("[" ++ join "," (List.map Json.stringify l) ++ "]").
    rewrite !append_assoc, value_bracket.
    destruct l as [|x l]; [reflexivity|].
    assert (Hopen : opens (join "," (List.map Json.stringify (x :: l)))).
    { apply join_opens, stringify_opens. }
    rewrite skip_ws_opens by done.
    destruct Hopen as (c & tail & Htext & _ & Hc & _).
    rewrite Htext at 1.
    change (String c tail ++ ?t) with (String c (tail ++ t)).
    cbv iota beta. rewrite Hc.
    rewrite elements_stringify; [reflexivity | done | done | done |].
    simpl in Hfuel. simpl. lia.
  - change (Json.stringify (JObject m))
      with ("{" ++ join "," (List.map member_text m) ++ "}").
    rewrite !append_assoc, value_brace.
    destruct m as [|kv m]; [reflexivity|].
    assert (Hopen : opens (join "," (List.map member_text (kv :: m)))).
    { apply join_opens, member_text_opens. }
    rewrite skip_ws_opens by done.
    destruct Hopen as (c & tail & Htext & _ & _ & Hc).
    rewrite Htext at 1.
    change (String c tail ++ ?t) with (String c (tail ++ t)).
    cbv iota beta. rewrite Hc.
    destruct Hwf as [Hkeys Hwf].
    rewrite members_stringify; [reflexivity | done | done | done | done |].
    simpl in Hfuel. simpl. lia.
Qed.

Lemma append_empty (s : string) : s ++ EmptyString = s.
Proof.
  induction s as [|c s IH]; [done|].
  change (String c (s ++ EmptyString) = String c s). by rewrite IH.
Qed.

Lemma opens_length text : opens text -> (1 <= String.length text)%nat.
Proof. intros (c & tail & -> & _). simpl. lia. Qed.

(** The fuel that [Json.parse] takes from the length of the text is
    enough. *)
Lemma cost_le_length v : (cost v <= String.length (Json.stringify v))%nat.
Proof.
  induction v as [|b|n|s|l IH|m IH] using json_nested_ind.
  - simpl. lia.
  - destruct b; simpl; lia.
  - apply (opens_length _ (stringify_opens (JNumber n))).
  - apply (opens_length _ (stringify_opens (JString s))).
  - change (Json.stringify (JArray l))
      with ("[" ++ join "," (List.map Json.stringify l) ++ "]").
    rewrite !length_append.
    change (String.length "[") with 1%nat. change (String.length "]") with 1%nat.
    cut (foldr (fun x acc => S (cost x + acc)%nat) 0%nat l
         <= 1 + String.length (join "," (List.map Json.stringify l)))%nat.
    { simpl. lia. }
    induction IH as [|x l Hx _ IHl]; [simpl; lia|].
    destruct l as [|y l].
    + simpl. lia.
    + change (List.map Json.stringify (x :: y :: l))
        with (Json.stringify x :: List.map Json.stringify (y :: l)).
      change (List.map Json.stringify (y :: l))
        with (Json.stringify y :: List.map Json.stringify l) at 1.
      rewrite join_cons, !length_append.
      change (String.length ",") with 1%nat.
      change (Json.stringify y :: List.map Json.stringify l)
        with (List.map Json.stringify (y :: l)).
      cbn [foldr] in *. lia.
  - change (Json.stringify (JObject m))
      with ("{" ++ join "," (List.map member_text m) ++ "}").
    rewrite !length_append.
    change (String.length "{") with 1%nat. change (String.length "}") with 1%nat.
    cut (foldr (fun kv acc => S (cost kv.2 + acc)%nat) 0%nat m
         <= 1 + String.length (join "," (List.map member_text m)))%nat.
    { simpl. lia. }
    assert (Hmember : forall kv : string * json,
               (cost kv.2 <= String.length (Json.stringify kv.2))%nat ->
               (S (cost kv.2) <= String.length (member_text kv))%nat).
    { intros kv H. unfold member_text. rewrite !length_append.
      pose proof (opens_length _ (stringify_opens (JString kv.1))).
      change (Json.stringify (JString kv.1)) with (Json.quote kv.1) in *.
      change (String.length ":") with 1%nat. lia. }
    induction IH as [|kv l Hx _ IHl]; [simpl; lia|].
    apply Hmember in Hx.
    destruct l as [|y l].
    + simpl in *. lia.
    + change (List.map member_text (kv :: y :: l))
        with (member_text kv :: List.map member_text (y :: l)).
      change (List.map member_text (y :: l))
        with (member_text y :: List.map member_text l) at 1.
      rewrite join_cons, !length_append.
      change (String.length ",") with 1%nat.
      change (member_text y :: List.map member_text l)
        with (List.map member_text (y :: l)).
      cbn [foldr] in *. lia.
Qed.

(** [Json.parse] gives back the value that [Json.stringify] wrote. *)
Lemma parse_stringify v : keys_once v -> Json.parse (Json.stringify v) = Normal v.
Proof.
  intros Hwf. unfold Json.parse.
  rewrite <- (append_empty (Json.stringify v)) at 2.
  rewrite (value_stringify v Hwf); [reflexivity | | reflexivity].
  pose proof (cost_le_length v). lia.
Qed.

Lemma parse_empty : Json.parse EmptyString = Throw.
Proof. reflexivity. Qed.

(** The persisted layout names no property twice. *)
Lemma keys_once_TodoItem todo : keys_once (TodoItem_to_json todo).
Proof.
  destruct todo as [i t d c p due b doneAt born o].
  destruct d, c, due, doneAt; (split; [apply (bool_decide_unpack _); reflexivity|]);
    simpl; tauto.
Qed.

Lemma keys_once_PersistedState state : keys_once (PersistedState_to_json state).
Proof.
  destruct state as [[todos upd]].
  assert (Htodos : keys_once (JArray (TodoItem_to_json <$> todos))).
  { induction todos as [|t todos IH]; [done|].
    rewrite fmap_cons. split; [apply keys_once_TodoItem | apply IH]. }
  split; [apply (bool_decide_unpack _); reflexivity|].
  split; [|done].
  split; [apply (bool_decide_unpack _); reflexivity|].
  split; [exact Htodos|]. by destruct upd.
Qed.

(** ** Saving, then loading *)

Section RoundTrip.

Lemma as_TodoItem_to_json todo : as_TodoItem (TodoItem_to_json todo) = Some todo.
Proof.
  destruct todo as [i t d c p due b doneAt born o].
  destruct d, c, p, due, doneAt; reflexivity.
Qed.

Lemma as_TodosState_to_json state :
  as_TodosState (TodosState_to_json state) = Some state.
Proof.
  destruct state as [todos upd]. unfold as_TodosState. simpl.
  rewrite (mapM_fmap_Some _ TodoItem_to_json todos as_TodoItem_to_json).
  by destruct upd.
Qed.

Lemma as_PersistedState_to_json state :
  as_PersistedState (PersistedState_to_json state) = Some state.
Proof.
  destruct state as [t]. unfold as_PersistedState. simpl.
  by rewrite as_TodosState_to_json.
Qed.

Lemma slot_put key value kvs : slot key (put key value kvs) = Some value.
Proof.
  induction kvs as [|[k v] kvs IH]; simpl.
  - by rewrite String.eqb_refl.
  - destruct (String.eqb k key) eqn:Hk; simpl; by rewrite Hk.
Qed.

End RoundTrip.

(** Saving then loading, for any [JSON.parse] and [JSON.stringify] such
    that parsing gives back the value written for this state. *)
Lemma save_then_load_with parse stringify state localStorage :
  denied localStorage = false ->
  (N.of_nat (String.length (stringify (PersistedState_to_json state)))
   <= quota localStorage)%N ->
  parse EmptyString = Throw ->
  parse (stringify (PersistedState_to_json state))
  = Normal (PersistedState_to_json state) ->
  loadState parse (saveState stringify state (Some localStorage))
  = Some (PersistedState_to_json state).
Proof.
  intros Hallowed Hfits Hempty Hback.
  unfold saveState, setItem. rewrite Hallowed.
  destruct (N.ltb_spec (quota localStorage)
              (N.of_nat (String.length (stringify (PersistedState_to_json state)))));
    [lia|].
  unfold loadState, getItem. simpl. rewrite slot_put.
  destruct (stringify (PersistedState_to_json state)) as [|c rest] eqn:Htext.
  - by rewrite Hempty in Hback.
  - simpl. by rewrite Hback.
Qed.

(** C8.  When the browser lets the store write the slot, [loadState]
    after [saveState] gives the state that was saved: the same tasks in
    the same sequence, each with the same fields, missing ones missing and
    a [null] [completedAt] [null], and the same [lastUpdated]; the store
    built from it holds the saved [todos]. *)
Theorem save_then_load seed state localStorage :
  denied localStorage = false ->
  (N.of_nat (String.length (Json.stringify (PersistedState_to_json state)))
   <= quota localStorage)%N ->
  let loaded :=
    loadState Json.parse (saveState Json.stringify state (Some localStorage)) in
  loaded ≫= as_PersistedState = Some state
  /\ store_todos seed loaded = Normal (TodosState_to_json (todos state)).
Proof.
  intros Hallowed Hfits loaded. unfold loaded.
  rewrite (save_then_load_with Json.parse Json.stringify state localStorage
             Hallowed Hfits parse_empty
             (parse_stringify _ (keys_once_PersistedState state))).
  split; [apply as_PersistedState_to_json | reflexivity].
Qed.

(** The seed after an [addTodo] and a [toggleComplete], saved into an
    empty storage and loaded. *)
Lemma save_then_load_witness :
  let state :=
    mkPersistedState
      (toggleComplete calls2 "id-1"
         (addTodo calls1
            (mkCreateTodoPayload "Buy milk" (Some "  ") None medium Undefined)
            (initialState seed0))) in
  let localStorage := mkStorage false 5000000 [] in
  let loaded :=
    loadState Json.parse (saveState Json.stringify state (Some localStorage)) in
  loaded ≫= as_PersistedState = Some state
  /\ store_todos seed0 loaded = Normal (TodosState_to_json (todos state)).
Proof.
  intros state localStorage.
  apply (save_then_load seed0 state localStorage).
  - reflexivity.
  - vm_compute. discriminate.
Defined.

(** * Further properties *)

(** ** What the reducers do to the collection *)

(** X1.  [addTodo] puts one task at the end of the collection and leaves
    the others as they are; the task is active, without [completedAt], and
    its order is at least 1 and not below the order of any other task.
    When no order of the collection is above [Number.MAX_SAFE_INTEGER], it
    is above the order of every other task. *)
Theorem addTodo_appends w payload state :
  exists created,
    items (addTodo w payload state) = (items state ++ [created])%list
    /\ identity created = (nanoid w, stamp w)
    /\ completed created = false
    /\ completedAt created = Null
    /\ 1 <= order created
    /\ (forall todo, todo ∈ items state -> order todo <= order created)
    /\ (safe_orders (items state) ->
        forall todo, todo ∈ items state -> order todo < order created)
    /\ (items state = [] -> order created = 1).
Proof.
  eexists. split; [reflexivity|]. simpl. split_and!; try reflexivity.
  - apply nextOrder_positive.
  - intros todo Hin. by apply nextOrder_ge.
  - intros Hsafe todo Hin. by apply nextOrder_above.
  - by intros ->.
Qed.

(** On the seed the new task is the fourth one, above the order 3 of the
    task "Call mom"; on an empty collection its order is 1. *)
Lemma addTodo_appends_witness :
  let payload := mkCreateTodoPayload "Buy milk" None None medium Undefined in
  let third :=
    mkTodoItem "id-3" "Call mom" (Some EmptyString) (Some "Family") low None
               true (Value "2026-01-01T09:00:00.000Z")
               "2026-01-01T09:00:00.000Z" 3 in
  (exists created,
      items (addTodo calls1 payload (initialState seed0))
      = (items (initialState seed0) ++ [created])%list
      /\ order third < order created)
  /\ exists created,
       items (addTodo calls1 payload (mkTodosState [] None)) = [created]
       /\ order created = 1.
Proof.
  intros payload third. split.
  - destruct (addTodo_appends calls1 payload (initialState seed0))
      as (created & Hitems & _ & _ & _ & _ & _ & Habove & _).
    exists created. split; [exact Hitems|].
    apply Habove; [repeat constructor; discriminate|].
    by eapply (list_elem_of_lookup_2 _ 2%nat).
  - destruct (addTodo_appends calls1 payload (mkTodosState [] None))
      as (created & Hitems & _ & _ & _ & _ & _ & _ & Hfirst).
    exists created. split; [exact Hitems | by apply Hfirst].
Defined.

(** The task that [find] finds, without its index. *)
Lemma find_by_id_cons wanted todo todos :
  snd <$> find_by_id wanted (todo :: todos)
  = if decide (id todo = wanted) then Some todo
    else snd <$> find_by_id wanted todos.
Proof.
  unfold find_by_id. simpl. case_decide; [done|].
  by destruct (list_find _ todos) as [[? ?]|].
Qed.

Lemma find_by_id_deleted w wanted state :
  find_by_id wanted (items (deleteTodo w wanted state)) = None.
Proof.
  apply find_by_id_None, Forall_forall. intros todo Hin. simpl in Hin.
  by apply list_elem_of_filter in Hin as [? _].
Qed.

(** X2.  After [deleteTodo] no task has the id, also when several had it,
    and [find] gives for every other id the task it gave before. *)
Theorem deleteTodo_removes w wanted state :
  find_by_id wanted (items (deleteTodo w wanted state)) = None
  /\ forall other,
       other ≠ wanted ->
       snd <$> find_by_id other (items (deleteTodo w wanted state))
       = snd <$> find_by_id other (items state).
Proof.
  split; [apply find_by_id_deleted|].
  intros other Hother. simpl. induction (items state) as [|t todos IH]; [done|].
  rewrite filter_cons, (find_by_id_cons other t todos).
  case_decide as Hkeep.
  - rewrite find_by_id_cons. by rewrite IH.
  - rewrite IH. case_decide; [|done]. destruct Hkeep. congruence.
Qed.

Lemma deleteTodo_removes_witness :
  find_by_id "id-2" (items (deleteTodo calls1 "id-2" (initialState seed0))) = None
  /\ snd <$> find_by_id "id-3" (items (deleteTodo calls1 "id-2" (initialState seed0)))
     = snd <$> find_by_id "id-3" (items (initialState seed0)).
Proof.
  destruct (deleteTodo_removes calls1 "id-2" (initialState seed0)) as [Hgone Hkept].
  split; [exact Hgone | apply Hkept; discriminate].
Defined.

Lemma identity_insert (todos : list TodoItem) (i : nat) todo todo' :
  todos !! i = Some todo ->
  identity todo' = identity todo ->
  identity <$> <[i:=todo']> todos = identity <$> todos.
Proof.
  intros Hi Hid. rewrite list_fmap_insert. apply list_insert_id.
  by rewrite list_lookup_fmap, Hi, Hid.
Qed.

Lemma identity_reorder_from index updatedIds todos :
  identity <$> reorder_from index updatedIds todos = identity <$> todos.
Proof.
  revert index todos.
  induction updatedIds as [|wanted rest IH]; intros index todos; [done|].
  simpl. rewrite IH.
  destruct (find_by_id wanted todos) as [[i todo]|] eqn:Hfound; [|done].
  apply find_by_id_Some in Hfound as [Hi _].
  by apply (identity_insert _ _ todo).
Qed.

Lemma identity_filter wanted (todos : list TodoItem) :
  identity <$> filter (fun item => id item ≠ wanted) todos
  = filter (fun p => p.1 ≠ wanted) (identity <$> todos).
Proof.
  induction todos as [|t todos IH]; [done|].
  rewrite fmap_cons, !filter_cons. simpl.
  case_decide; [rewrite fmap_cons|]; by rewrite IH.
Qed.

(** X3.  No reducer changes the id or the [createdAt] of a task, and only
    [addTodo] and [deleteTodo] change which tasks there are and in which
    sequence: [addTodo] adds the id it generated, with the time of the
    call, at the end; [deleteTodo] takes out the tasks with the id it is
    given. *)
Theorem identities_after_reducer w action state :
  identity <$> items (todosReducer w action state)
  = match action with
    | AddTodo _ => ((identity <$> items state) ++ [(nanoid w, stamp w)])%list
    | DeleteTodo wanted => filter (fun p => p.1 ≠ wanted) (identity <$> items state)
    | _ => identity <$> items state
    end.
Proof.
  destruct action as [payload|wanted changes|wanted|wanted|updatedIds]; simpl.
  - by rewrite fmap_app.
  - unfold updateTodo.
    destruct (find_by_id wanted (items state)) as [[i todo]|] eqn:Hfound; [|done].
    apply find_by_id_Some in Hfound as [Hi _]. simpl.
    apply (identity_insert _ _ todo); [done|].
    by destruct (changes_completed changes) as [[|]|].
  - unfold toggleComplete.
    destruct (find_by_id wanted (items state)) as [[i todo]|] eqn:Hfound; [|done].
    apply find_by_id_Some in Hfound as [Hi _]. simpl.
    apply (identity_insert _ _ todo); [done|].
    by destruct (completed todo).
  - apply identity_filter.
  - apply identity_reorder_from.
Qed.

(** X4.  [updateTodo] and [toggleComplete] assign to one task only, the
    first one with the id, whatever the update passes: every other task
    of the collection is as it was, at the index it had.  An update that
    passes no [completed] leaves [completed], [completedAt] and [order]
    of the task as they are; [toggleComplete] leaves its title,
    description, category, priority and due date as they are. *)
Theorem update_and_toggle_keep w wanted state i todo :
  find_by_id wanted (items state) = Some (i, todo) ->
  (forall changes,
      exists after,
        items (updateTodo w wanted changes state) = <[i:=after]> (items state)
        /\ (forall j : nat,
              j ≠ i ->
              items (updateTodo w wanted changes state) !! j = items state !! j)
        /\ (changes_completed changes = None ->
            (completed after, completedAt after, order after)
            = (completed todo, completedAt todo, order todo)))
  /\ exists after,
       items (toggleComplete w wanted state) = <[i:=after]> (items state)
       /\ (forall j : nat,
             j ≠ i ->
             items (toggleComplete w wanted state) !! j = items state !! j)
       /\ (title after, description after, category after, priority after,
           dueDate after)
          = (title todo, description todo, category todo, priority todo,
             dueDate todo).
Proof.
  intros Hfound. split.
  - intros changes. unfold updateTodo. rewrite Hfound. simpl.
    eexists. split_and!; [reflexivity | |].
    + intros j Hne. by apply list_lookup_insert_ne.
    + by intros ->.
  - rewrite (toggleComplete_found w wanted state i todo Hfound).
    eexists. split_and!; [reflexivity | |].
    + intros j Hne. by apply list_lookup_insert_ne.
    + unfold toggled. by destruct (completed todo).
Qed.

(** The seed's second task: an update of it that passes [completed: true]
    and one that passes no [completed], and [toggleComplete].  The first
    and the third task are as they were each time. *)
Lemma update_and_toggle_keep_witness :
  let changes c := mkTodoChanges "Groceries" (Some "for Sunday") None high Undefined c in
  let state := initialState seed0 in
  (forall j : nat,
      j ≠ 1%nat ->
      items (updateTodo calls1 "id-2" (changes (Some true)) state) !! j
      = items state !! j)
  /\ (exists after,
      items (updateTodo calls1 "id-2" (changes None) state)
      = <[1%nat:=after]> (items state)
      /\ (completed after, completedAt after, order after) = (false, Null, 2))
  /\ exists after,
       items (toggleComplete calls1 "id-2" state) = <[1%nat:=after]> (items state)
       /\ (title after, description after, category after, priority after,
           dueDate after)
          = ("Grocery run", Some "Ingredients for the weekend dinner party.",
             Some "Personal", medium, Some "2026-01-05T09:00:00.000Z").
Proof.
  intros changes state.
  destruct (update_and_toggle_keep calls1 "id-2" state 1
              (mkTodoItem "id-2" "Grocery run"
                 (Some "Ingredients for the weekend dinner party.")
                 (Some "Personal") medium (Some "2026-01-05T09:00:00.000Z")
                 false Null "2026-01-01T09:00:00.000Z" 2))
    as [Hupdate Htoggle]; [reflexivity|].
  split_and!.
  - by destruct (Hupdate (changes (Some true))) as (after & _ & Hothers & _).
  - destruct (Hupdate (changes None)) as (after & Hitems & _ & Hkeep).
    exists after. split; [exact Hitems | by apply Hkeep].
  - destruct Htoggle as (after & Hitems & _ & Hkeep). by exists after.
Defined.

(** ** [reorderActive] *)

(** Two tasks of a collection with distinct ids that share an id are at
    the same index. *)
Lemma same_id_same_index (todos : list TodoItem) (i j : nat) a b :
  NoDup (id <$> todos) ->
  todos !! i = Some a -> todos !! j = Some b -> id a = id b -> i = j.
Proof.
  intros Hnd Hi Hj Hid.
  apply (NoDup_lookup _ i j (id a) Hnd); rewrite list_lookup_fmap.
  - by rewrite Hi.
  - by rewrite Hj, Hid.
Qed.

Lemma reorder_from_lookup updatedIds : forall index todos,
  NoDup (id <$> todos) ->
  forall (i : nat) todo,
    todos !! i = Some todo ->
    reorder_from index updatedIds todos !! i
    = Some match last_position index updatedIds (id todo) with
           | Some k => set_order (Z.of_nat k + 1) todo
           | None => todo
           end.
Proof.
  induction updatedIds as [|x rest IH]; intros index todos Hnd i todo Hi; [done|].
  simpl.
  destruct (find_by_id x todos) as [[j found]|] eqn:Hfound.
  - apply find_by_id_Some in Hfound as [Hj Hx].
    assert (Hnd' : NoDup (id <$> <[j:=set_order (Z.of_nat index + 1) found]> todos)).
    { by rewrite (ids_insert _ _ found). }
    destruct (decide (i = j)) as [->|Hne].
    + assert (found = todo) as -> by congruence.
      rewrite (IH _ _ Hnd' j (set_order (Z.of_nat index + 1) todo)).
      2:{ apply list_lookup_insert_eq. by eapply lookup_lt_Some. }
      simpl. destruct (last_position (S index) rest (id todo)); [done|].
      by rewrite decide_True.
    + rewrite (IH _ _ Hnd' i todo) by (by rewrite list_lookup_insert_ne).
      destruct (last_position (S index) rest (id todo)); [done|].
      rewrite decide_False; [done|].
      intros Heq. apply Hne.
      apply (same_id_same_index todos i j todo found); congruence.
  - rewrite (IH _ _ Hnd i todo Hi).
    destruct (last_position (S index) rest (id todo)); [done|].
    rewrite decide_False; [done|].
    intros ->. apply find_by_id_None in Hfound.
    eapply Forall_lookup_1 in Hfound; [|done]. done.
Qed.

Lemma length_reorder_from index updatedIds todos :
  length (reorder_from index updatedIds todos) = length todos.
Proof. by rewrite <- !(length_fmap id), ids_reorder_from. Qed.

(** X5.  In a collection with distinct ids, [reorderActive] gives every
    task whose id is listed the order "index of the id + 1" (the index of
    its last occurrence, when an id is listed twice) and changes nothing
    else: a task that is not listed stays as it is, an id that no task has
    is passed over, and the tasks keep their places in the collection. *)
Theorem reorderActive_orders w updatedIds state :
  NoDup (ids state) ->
  length (items (reorderActive w updatedIds state)) = length (items state)
  /\ forall (i : nat) todo,
       items state !! i = Some todo ->
       items (reorderActive w updatedIds state) !! i
       = Some match last_position 0 updatedIds (id todo) with
              | Some k => set_order (Z.of_nat k + 1) todo
              | None => todo
              end.
Proof.
  intros Hnd. split.
  - apply length_reorder_from.
  - intros i todo Hi. simpl. by apply reorder_from_lookup.
Qed.

(** The active tasks A (order 1) and B (order 2) with the ids of B, of no
    task and of A: the id of no task is passed over, and counts for the
    index of the next one. *)
Lemma reorderActive_orders_witness :
  let active n o :=
    mkTodoItem n "task" None None medium None false Null "2026-01-01T09:00:00.000Z" o in
  let state := mkTodosState [active "idA" 1; active "idB" 2] None in
  items (reorderActive calls1 ["idB"; "idC"; "idA"] state)
  = [active "idA" 3; active "idB" 1].
Proof.
  intros active state.
  destruct (reorderActive_orders calls1 ["idB"; "idC"; "idA"] state) as [Hlen Hat].
  { apply (bool_decide_unpack _). reflexivity. }
  apply list_eq. intros [|[|i]].
  - apply (Hat 0%nat (active "idA" 1)). reflexivity.
  - apply (Hat 1%nat (active "idB" 2)). reflexivity.
  - reflexivity.
Defined.

(** ** The sort of the lists *)

Section Sort.

Context {A : Type}.
Variable compareFn : A -> A -> Z.

Lemma insert_by_Permutation x (l : list A) :
  JsArray.insert_by compareFn x l ≡ₚ x :: l.
Proof.
  induction l as [|y l IH]; [done|]. simpl.
  destruct (compareFn x y <=? 0); [done|].
  rewrite IH. apply Permutation_swap.
Qed.

(** The sorted array holds the elements of the array, whatever the
    comparator. *)
Lemma sort_Permutation (l : list A) : JsArray.sort compareFn l ≡ₚ l.
Proof.
  induction l as [|x l IH]; [done|].
  change (JsArray.sort compareFn (x :: l))
    with (JsArray.insert_by compareFn x (JsArray.sort compareFn l)).
  by rewrite insert_by_Permutation, IH.
Qed.

Lemma insert_by_first x (l : list A) :
  (forall y, head l = Some y -> compareFn x y <= 0) ->
  JsArray.insert_by compareFn x l = x :: l.
Proof.
  destruct l as [|y l]; [done|]. intros H. simpl.
  destruct (Z.leb_spec (compareFn x y) 0) as [_|Hgt]; [done|].
  specialize (H y eq_refl). lia.
Qed.

Lemma insert_by_last x (l : list A) :
  (forall y, y ∈ l -> 0 < compareFn x y) ->
  JsArray.insert_by compareFn x l = (l ++ [x])%list.
Proof.
  induction l as [|y l IH]; [done|]. intros H. simpl.
  destruct (Z.leb_spec (compareFn x y) 0) as [Hle|_].
  - specialize (H y ltac:(left)). lia.
  - rewrite IH; [done|]. intros z Hz. apply H. by right.
Qed.

Lemma insert_by_before_last y x (l : list A) :
  compareFn y x <= 0 ->
  JsArray.insert_by compareFn y (l ++ [x])%list
  = (JsArray.insert_by compareFn y l ++ [x])%list.
Proof.
  intros Hyx. induction l as [|z l IH]; simpl.
  - by destruct (Z.leb_spec (compareFn y x) 0); [|lia].
  - destruct (compareFn y z <=? 0); [done|]. by rewrite IH.
Qed.

(** An element that the comparator puts after all the others, taken from
    anywhere in the array, is the last one of the sorted array. *)
Lemma sort_greatest x (before after : list A) :
  (forall y, y ∈ before -> compareFn y x <= 0) ->
  (forall y, y ∈ after -> 0 < compareFn x y) ->
  JsArray.sort compareFn (before ++ x :: after)%list
  = (JsArray.sort compareFn (before ++ after) ++ [x])%list.
Proof.
  intros Hbefore Hafter. induction before as [|y before IH].
  - simpl. apply insert_by_last. intros y Hy. apply Hafter.
    by rewrite <- (sort_Permutation after).
  - change (JsArray.sort compareFn ((y :: before) ++ x :: after)%list)
      with (JsArray.insert_by compareFn y
              (JsArray.sort compareFn (before ++ x :: after)%list)).
    rewrite IH by (intros z Hz; apply Hbefore; by right).
    rewrite insert_by_before_last by (apply Hbefore; by left). done.
Qed.

(** *** A comparator that compares keys *)

Variable key : A -> Z.
Variable valid : A -> Prop.
Hypothesis compares_keys :
  forall a b, valid a -> valid b -> (compareFn a b <= 0 <-> key a <= key b).

Local Abbreviation by_key := (fun a b => key a <= key b).

Lemma insert_by_sorted x (l : list A) :
  valid x -> Forall valid l ->
  StronglySorted by_key l ->
  StronglySorted by_key (JsArray.insert_by compareFn x l).
Proof.
  intros Hx Hl Hsorted. induction Hsorted as [|y l Hsorted IH Hy]; simpl.
  - repeat constructor.
  - apply Forall_cons in Hl as [Hvy Hl].
    destruct (Z.leb_spec (compareFn x y) 0) as [Hle|Hgt].
    + apply compares_keys in Hle; [|done..].
      constructor; [by constructor|].
      constructor; [done|]. eapply Forall_impl; [exact Hy|]. simpl. lia.
    + assert (key y <= key x).
      { destruct (Z.le_gt_cases (key x) (key y)) as [Hk|Hk]; [|lia].
        apply compares_keys in Hk; [lia|done..]. }
      constructor; [by apply IH|].
      rewrite insert_by_Permutation. by constructor.
Qed.

Lemma sort_sorted (l : list A) :
  Forall valid l -> StronglySorted by_key (JsArray.sort compareFn l).
Proof.
  induction l as [|x l IH]; intros Hl; [constructor|].
  apply Forall_cons in Hl as [Hx Hl].
  change (JsArray.sort compareFn (x :: l))
    with (JsArray.insert_by compareFn x (JsArray.sort compareFn l)).
  apply insert_by_sorted; [done| |by apply IH].
  by rewrite sort_Permutation.
Qed.

(** Filtering the sorted array or sorting the filtered array: the same. *)
Lemma filter_insert_by (P : A -> Prop) `{forall x, Decision (P x)} x (l : list A) :
  valid x -> Forall valid l ->
  StronglySorted by_key l ->
  filter P (JsArray.insert_by compareFn x l)
  = if decide (P x) then JsArray.insert_by compareFn x (filter P l)
    else filter P l.
Proof.
  intros Hx Hl Hsorted. induction Hsorted as [|y l Hsorted IH Hy]; simpl.
  - rewrite filter_cons. by case_decide.
  - apply Forall_cons in Hl as [Hvy Hl].
    destruct (Z.leb_spec (compareFn x y) 0) as [Hle|Hgt].
    + rewrite filter_cons. case_decide; [|done].
      symmetry. apply insert_by_first. intros z Hz.
      apply head_Some_elem_of, list_elem_of_filter in Hz as [_ Hz].
      apply compares_keys in Hle; [|done..].
      apply compares_keys; [done| |].
      * apply elem_of_cons in Hz as [->|Hz]; [done|].
        by eapply Forall_forall in Hl.
      * apply elem_of_cons in Hz as [->|Hz]; [done|].
        eapply Forall_forall in Hy; [|done]. simpl in Hy. lia.
    + rewrite filter_cons, IH by done. rewrite (filter_cons _ y l).
      destruct (decide (P y)), (decide (P x)); simpl; try done.
      by destruct (Z.leb_spec (compareFn x y) 0); [lia|].
Qed.

Lemma filter_sort (P : A -> Prop) `{forall x, Decision (P x)} (l : list A) :
  Forall valid l ->
  filter P (JsArray.sort compareFn l) = JsArray.sort compareFn (filter P l).
Proof.
  induction l as [|x l IH]; intros Hl; [done|].
  apply Forall_cons in Hl as [Hx Hl].
  change (JsArray.sort compareFn (x :: l))
    with (JsArray.insert_by compareFn x (JsArray.sort compareFn l)).
  rewrite filter_insert_by;
    [|done|by rewrite sort_Permutation|by apply sort_sorted].
  rewrite filter_cons, IH by done. by case_decide.
Qed.

(** A sorted array with the elements of an array whose keys are distinct
    and ascending is that array. *)
Lemma sorted_unique (ascending sorted : list A) :
  StronglySorted (fun a b => key a < key b) ascending ->
  StronglySorted by_key sorted ->
  sorted ≡ₚ ascending ->
  sorted = ascending.
Proof.
  intros Hasc. revert sorted.
  induction Hasc as [|a l Hasc IH Ha]; intros sorted Hsorted Hperm.
  - by apply Permutation_nil_r.
  - destruct Hsorted as [|b m Hsorted Hb].
    { by apply Permutation_nil_cons in Hperm. }
    assert (b = a) as ->.
    { assert (Hin : b ∈ a :: l) by (rewrite <- Hperm; left).
      apply elem_of_cons in Hin as [->|Hin]; [done|].
      eapply Forall_forall in Ha; [|done].
      assert (Hin' : a ∈ b :: m) by (rewrite Hperm; left).
      apply elem_of_cons in Hin' as [->|Hin']; [done|].
      eapply Forall_forall in Hb; [|done]. simpl in Hb. lia. }
    f_equal. apply IH; [done|]. by apply Permutation_cons_inv in Hperm.
Qed.

End Sort.

(** ** The active list *)

Section ActiveList.

Local Abbreviation by_order := (fun a b : TodoItem => order a - order b).
Local Abbreviation active := (fun todo : TodoItem => completed todo = false).

Lemma by_order_compares (a b : TodoItem) :
  True -> True -> (by_order a b <= 0 <-> order a <= order b).
Proof. lia. Qed.

Lemma Forall_True {A} (l : list A) : Forall (fun _ => True) l.
Proof. by apply Forall_forall. Qed.

(** A task with an index: the collection around it. *)
Lemma split_at (todos : list TodoItem) (i : nat) todo :
  todos !! i = Some todo ->
  todos = (take i todos ++ todo :: drop (S i) todos)%list
  /\ forall todo', <[i:=todo']> todos
                   = (take i todos ++ todo' :: drop (S i) todos)%list.
Proof.
  intros Hi. split; [by rewrite take_drop_middle|].
  intros todo'. apply insert_take_drop. by eapply lookup_lt_Some.
Qed.

Lemma filter_all {A} (P : A -> Prop) `{forall x, Decision (P x)} (l : list A) :
  Forall P l -> filter P l = l.
Proof.
  induction 1 as [|x l Hx _ IH]; [done|].
  by rewrite filter_cons_True, IH.
Qed.

Lemma filter_swap {A} (P Q : A -> Prop)
    `{forall x, Decision (P x)} `{forall x, Decision (Q x)} (l : list A) :
  filter P (filter Q l) = filter Q (filter P l).
Proof.
  induction l as [|x l IH]; [done|].
  rewrite !filter_cons.
  destruct (decide (P x)), (decide (Q x));
    rewrite ?filter_cons_True, ?filter_cons_False by done; by rewrite IH.
Qed.

(** The order that a task gets on becoming active again is above the
    order of every task of a collection with safe orders. *)
Lemma toggled_order_above w state i todo other :
  safe_orders (items state) ->
  items state !! i = Some todo ->
  completed todo = true ->
  other ∈ items state ->
  order other < order (toggled w state i todo).
Proof.
  intros Hsafe Hi Hdone Hin. unfold toggled. rewrite Hdone. simpl.
  rewrite (nextOrder_insert_same_order _ _ todo) by done.
  by apply nextOrder_above.
Qed.

End ActiveList.

(** X6.  The active list holds the tasks that are not completed, each as
    often as the collection holds it and no other task, by ascending
    order. *)
Theorem activeTodos_sorted todos :
  activeTodos todos ≡ₚ filter (fun todo => completed todo = false) todos
  /\ StronglySorted (fun a b => order a <= order b) (activeTodos todos).
Proof.
  split.
  - apply sort_Permutation.
  - apply (sort_sorted _ order (fun _ => True)); [|apply Forall_True].
    intros a b _ _. lia.
Qed.

(** X7.  A task that [addTodo] creates is the last one of the active
    list, behind the tasks that were there, which keep their sequence. *)
Theorem addTodo_last_in_activeTodos w payload state :
  exists created,
    items (addTodo w payload state) = (items state ++ [created])%list
    /\ activeTodos (items (addTodo w payload state))
       = (activeTodos (items state) ++ [created])%list.
Proof.
  eexists. split; [reflexivity|].
  unfold activeTodos. simpl. rewrite filter_app.
  rewrite (filter_cons_True _ _ []) by done. rewrite filter_nil.
  rewrite (sort_greatest _ _ _ []); [by rewrite app_nil_r| |].
  - intros y Hy. apply list_elem_of_filter in Hy as [_ Hy]. simpl.
    pose proof (nextOrder_ge _ _ Hy). lia.
  - intros y Hy. by apply elem_of_nil in Hy.
Qed.

(** X8.  In a collection with no order above [Number.MAX_SAFE_INTEGER], a
    completed task that [toggleComplete] makes active again is the last
    one of the active list, behind the tasks that were there, which keep
    their sequence. *)
Theorem uncompleted_last_in_activeTodos w wanted state i todo :
  safe_orders (items state) ->
  find_by_id wanted (items state) = Some (i, todo) ->
  completed todo = true ->
  exists moved,
    items (toggleComplete w wanted state) !! i = Some moved
    /\ completed moved = false
    /\ activeTodos (items (toggleComplete w wanted state))
       = (activeTodos (items state) ++ [moved])%list.
Proof.
  intros Hsafe Hfound Hdone.
  pose proof (found_in_range wanted state i todo Hfound) as Hlt.
  pose proof (find_by_id_Some _ _ _ _ Hfound) as [Hi _].
  rewrite (toggleComplete_found w wanted state i todo Hfound). simpl.
  exists (toggled w state i todo).
  assert (Hactive : completed (toggled w state i todo) = false).
  { unfold toggled. by rewrite Hdone. }
  split_and!; [by apply list_lookup_insert_eq | done |].
  destruct (split_at _ _ _ Hi) as [Hitems Hinsert].
  unfold activeTodos. rewrite Hinsert. rewrite Hitems at 3.
  rewrite !filter_app.
  rewrite (filter_cons_True _ (toggled w state i todo)) by done.
  rewrite (filter_cons_False _ todo) by (intros ?; congruence).
  apply sort_greatest.
  - intros y Hy. apply list_elem_of_filter in Hy as [_ Hy].
    apply subseteq_take in Hy.
    pose proof (toggled_order_above w state i todo y Hsafe Hi Hdone Hy). lia.
  - intros y Hy. apply list_elem_of_filter in Hy as [_ Hy].
    apply subseteq_drop in Hy.
    pose proof (toggled_order_above w state i todo y Hsafe Hi Hdone Hy). lia.
Qed.

(** A completed task with the order 1, first in a collection whose active
    tasks have the orders 3 and 2: made active again it is behind both in
    the active list. *)
Lemma uncompleted_last_in_activeTodos_witness :
  let first :=
    mkTodoItem "a" "Water the plants" None None medium None true
               (Value "2026-01-02T09:00:00.000Z") "2026-01-01T09:00:00.000Z" 1 in
  let other n o :=
    mkTodoItem n "task" None None medium None false Null
               "2026-01-01T09:00:00.000Z" o in
  let state := mkTodosState [first; other "b" 3; other "c" 2] None in
  exists moved,
    items (toggleComplete calls1 "a" state) !! 0%nat = Some moved
    /\ completed moved = false
    /\ order moved = 4
    /\ id <$> activeTodos (items state) = ["c"; "b"]
    /\ activeTodos (items (toggleComplete calls1 "a" state))
       = (activeTodos (items state) ++ [moved])%list.
Proof.
  intros first other state.
  destruct (uncompleted_last_in_activeTodos calls1 "a" state 0 first)
    as (moved & Hmoved & Hactive & Hlist);
    [repeat constructor; discriminate | reflexivity | reflexivity |].
  exists moved. split_and!; [done | done | | reflexivity | done].
  injection Hmoved as <-. reflexivity.
Defined.

(** X9.  [deleteTodo] takes the tasks with the id out of the active list
    and leaves the other tasks of the list in their sequence. *)
Theorem deleteTodo_activeTodos w wanted state :
  activeTodos (items (deleteTodo w wanted state))
  = filter (fun todo => id todo ≠ wanted) (activeTodos (items state)).
Proof.
  unfold activeTodos. simpl.
  rewrite (filter_sort _ order (fun _ => True));
    [| intros a b _ _; lia | apply Forall_True].
  f_equal. apply filter_swap.
Qed.

(** X10.  In a collection with distinct ids, completing an active task
    with [toggleComplete] takes it out of the active list and leaves the
    other tasks of the list in their sequence. *)
Theorem completed_leaves_activeTodos w wanted state i todo :
  NoDup (ids state) ->
  find_by_id wanted (items state) = Some (i, todo) ->
  completed todo = false ->
  activeTodos (items (toggleComplete w wanted state))
  = filter (fun todo => id todo ≠ wanted) (activeTodos (items state)).
Proof.
  intros Hnd Hfound Hactive.
  pose proof (find_by_id_Some _ _ _ _ Hfound) as [Hi Hid].
  rewrite (toggleComplete_found w wanted state i todo Hfound). simpl.
  unfold activeTodos.
  rewrite (filter_sort _ order (fun _ => True));
    [| intros a b _ _; lia | apply Forall_True].
  f_equal. rewrite filter_swap.
  destruct (split_at _ _ _ Hi) as [Hitems Hinsert].
  rewrite Hinsert. rewrite Hitems at 3.
  assert (Hothers : forall (j : nat) other,
             items state !! j = Some other -> j ≠ i -> id other ≠ wanted).
  { intros j other Hj Hne Heq. apply Hne.
    apply (same_id_same_index (items state) j i other todo);
      [exact Hnd | done | done | congruence]. }
  rewrite !filter_app, (filter_cons_False _ (toggled w state i todo)),
    (filter_cons_False _ todo).
  - f_equal.
    + f_equal. symmetry. apply filter_all, Forall_forall. intros y Hy.
      apply elem_of_take in Hy as (j & Hj & Hlt). apply (Hothers j y Hj). lia.
    + f_equal. symmetry. apply filter_all, Forall_forall. intros y Hy.
      apply list_elem_of_lookup in Hy as [j Hj]. rewrite lookup_drop in Hj.
      apply (Hothers _ y Hj). lia.
  - by intros ?.
  - unfold toggled. rewrite Hactive. simpl. congruence.
Qed.

Lemma completed_leaves_activeTodos_witness :
  activeTodos (items (toggleComplete calls1 "id-1" (initialState seed0)))
  = filter (fun todo => id todo ≠ "id-1") (activeTodos (items (initialState seed0))).
Proof.
  apply (completed_leaves_activeTodos calls1 "id-1" (initialState seed0) 0
           (mkTodoItem "id-1" "Plan sprint backlog"
              (Some "Review tasks for the week and assign ownership.")
              (Some "Work") high (Some "2026-01-03T09:00:00.000Z")
              false Null "2026-01-01T09:00:00.000Z" 1)).
  - apply (bool_decide_unpack _). reflexivity.
  - reflexivity.
  - reflexivity.
Defined.

(** ** [reorderActive] and the active list *)

Section ReorderList.

Lemma fmap_Permutation_inv {A B} (f : A -> B) (k : list A) (l : list B) :
  l ≡ₚ f <$> k -> exists k', k' ≡ₚ k /\ l = f <$> k'.
Proof.
  intros H. apply (Permutation_map_inv f k) in H as (k' & -> & Hk).
  by exists k'.
Qed.

Lemma NoDup_fmap_filter {A B} (f : A -> B) (P : A -> Prop)
    `{forall x, Decision (P x)} (l : list A) :
  NoDup (f <$> l) -> NoDup (f <$> filter P l).
Proof.
  induction l as [|x l IH]; intros Hnd; [done|].
  rewrite fmap_cons in Hnd. apply NoDup_cons in Hnd as [Hfresh Hnd].
  rewrite filter_cons. case_decide; [|by apply IH].
  rewrite fmap_cons. apply NoDup_cons. split; [|by apply IH].
  intros (y & Hy & Hin)%list_elem_of_fmap.
  apply list_elem_of_filter in Hin as [_ Hin].
  apply Hfresh. apply list_elem_of_fmap. eauto.
Qed.

Lemma last_position_None index updatedIds wanted :
  wanted ∉ updatedIds -> last_position index updatedIds wanted = None.
Proof.
  revert index. induction updatedIds as [|x rest IH]; intros index Hnot; [done|].
  apply not_elem_of_cons in Hnot as [Hne Hnot]. simpl.
  rewrite IH by done. by rewrite decide_False.
Qed.

(** In a list without repetition, the index used last is the index. *)
Lemma last_position_NoDup updatedIds : forall index (k : nat) wanted,
  NoDup updatedIds ->
  updatedIds !! k = Some wanted ->
  last_position index updatedIds wanted = Some (index + k)%nat.
Proof.
  induction updatedIds as [|x rest IH]; intros index k wanted Hnd Hk; [done|].
  apply NoDup_cons in Hnd as [Hx Hnd]. simpl. destruct k as [|k].
  - injection Hk as ->. rewrite last_position_None by done.
    rewrite decide_True by done. f_equal. lia.
  - rewrite (IH (S index) k wanted Hnd Hk). f_equal. lia.
Qed.

Lemma filter_fmap_keep {A} (P : A -> Prop) `{forall x, Decision (P x)}
    (h : A -> A) (l : list A) :
  (forall x, P (h x) <-> P x) ->
  filter P (h <$> l) = h <$> filter P l.
Proof.
  intros Hh. induction l as [|x l IH]; [done|].
  rewrite fmap_cons, !filter_cons.
  destruct (decide (P x)) as [Hx|Hx].
  - rewrite decide_True by (by apply Hh). by rewrite fmap_cons, IH.
  - rewrite decide_False by (by rewrite Hh). done.
Qed.

(** Tasks whose orders count up from one index to the next are in strictly
    ascending order. *)
Lemma counting_ascending (l : list TodoItem) : forall offset : Z,
  (forall (k : nat) todo, l !! k = Some todo -> order todo = offset + Z.of_nat k) ->
  StronglySorted (fun a b => order a < order b) l.
Proof.
  induction l as [|x l IH]; intros offset H; constructor.
  - apply (IH (offset + 1)). intros k todo Hk.
    rewrite (H (S k) todo Hk). lia.
  - apply Forall_forall. intros y Hy.
    apply list_elem_of_lookup in Hy as [k Hk].
    rewrite (H 0%nat x eq_refl), (H (S k) y Hk). lia.
Qed.

End ReorderList.

(** X11.  In a collection with distinct ids, [reorderActive] with the ids
    of the active tasks in any sequence makes this sequence the one of the
    active list. *)
Theorem reorderActive_activeTodos w updatedIds state :
  NoDup (ids state) ->
  updatedIds ≡ₚ id <$> filter (fun todo => completed todo = false) (items state) ->
  id <$> activeTodos (items (reorderActive w updatedIds state)) = updatedIds.
Proof.
  intros Hnd Hperm.
  set (place := fun todo : TodoItem =>
         match last_position 0 updatedIds (id todo) with
         | Some k => set_order (Z.of_nat k + 1) todo
         | None => todo
         end).
  assert (Hplace_id : forall todo, id (place todo) = id todo).
  { intros todo. unfold place. by destruct (last_position _ _ _). }
  assert (Hitems : items (reorderActive w updatedIds state) = place <$> items state).
  { apply list_eq. intros i. rewrite list_lookup_fmap. simpl.
    destruct (items state !! i) as [todo|] eqn:Hi.
    - by rewrite (reorder_from_lookup _ _ _ Hnd i todo Hi).
    - apply lookup_ge_None. rewrite length_reorder_from. by apply lookup_ge_None. }
  rewrite Hitems. unfold activeTodos.
  rewrite (filter_fmap_keep _ place).
  2:{ intros todo. unfold place. by destruct (last_position _ _ _). }
  apply fmap_Permutation_inv in Hperm as (listed & Hlisted & ->).
  assert (Hnd' : NoDup (id <$> listed)).
  { rewrite Hlisted. by apply NoDup_fmap_filter. }
  transitivity (id <$> (place <$> listed)).
  2:{ rewrite <- list_fmap_compose. apply list_fmap_ext.
      intros i todo _. apply Hplace_id. }
  f_equal.
  apply (sorted_unique order).
  - apply (counting_ascending _ 1). intros k placed Hk.
    rewrite list_lookup_fmap in Hk.
    destruct (listed !! k) as [todo|] eqn:Htodo; [|done].
    injection Hk as <-. unfold place.
    rewrite (last_position_NoDup _ 0 k (id todo) Hnd')
      by (by rewrite list_lookup_fmap, Htodo).
    simpl. lia.
  - apply (sort_sorted _ order (fun _ => True)); [|apply Forall_True].
    intros a b _ _. lia.
  - rewrite sort_Permutation. by rewrite Hlisted.
Qed.

(** The seed with its two active tasks in the other sequence. *)
Lemma reorderActive_activeTodos_witness :
  id <$> activeTodos (items (reorderActive calls1 ["id-2"; "id-1"] (initialState seed0)))
  = ["id-2"; "id-1"].
Proof.
  apply (reorderActive_activeTodos calls1 ["id-2"; "id-1"] (initialState seed0)).
  - apply (bool_decide_unpack _). reflexivity.
  - apply Permutation_swap.
Defined.

(** ** The counts *)

Lemma length_sort {A} (compareFn : A -> A -> Z) (l : list A) :
  length (JsArray.sort compareFn l) = length l.
Proof. by rewrite sort_Permutation. Qed.

(** X12.  The count of overdue tasks is the number of tasks of the
    collection that the card shows as overdue: a completed task, a task
    without due date and a task whose due date is no date are not
    counted. *)
Theorem overdueCount_counts_cards startOfDay today todos :
  overdueCount startOfDay today todos
  = length (filter (fun todo => isOverdue startOfDay today todo = true) todos)
  /\ (overdueCount startOfDay today todos <= length (activeTodos todos))%nat.
Proof.
  split; [|apply length_filter].
  unfold overdueCount, activeTodos. rewrite sort_Permutation.
  rewrite list_filter_filter. f_equal. apply list_filter_iff.
  intros todo. unfold due_before_today, isOverdue.
  destruct (dueDate todo) as [due|], (completed todo);
    [destruct (truthy due), (before_today startOfDay today due)..| |];
    simpl; intuition congruence.
Qed.

(** The seed on the day after its first task was due, in UTC: one task is
    overdue, and none once it is completed. *)
Example overdueCount_seed :
  let today := 1767484800000 in
  overdueCount utc_startOfDay today (items (initialState seed0)) = 1%nat
  /\ overdueCount utc_startOfDay today
       (items (toggleComplete calls1 "id-1" (initialState seed0))) = 0%nat.
Proof. split; reflexivity. Qed.

(** X13.  Every task is in one of the two lists: the lengths of the
    active list and of the completed list add up to the number of
    tasks. *)
Theorem active_and_completed_counts date_getTime todos :
  (length (activeTodos todos) + length (completedTodos date_getTime todos))%nat
  = length todos.
Proof.
  unfold activeTodos, completedTodos. rewrite !length_sort.
  induction todos as [|todo todos IH]; [done|].
  rewrite !filter_cons. destruct (completed todo) eqn:Hdone.
  - rewrite decide_False, decide_True by done. simpl. lia.
  - rewrite decide_True, decide_False by done. simpl. lia.
Qed.

(** ** The completed list *)

Lemma StronglySorted_impl {A} (R R' : A -> A -> Prop) (l : list A) :
  (forall a b, R a b -> R' a b) -> StronglySorted R l -> StronglySorted R' l.
Proof.
  intros Himpl. induction 1 as [|x l _ IH Hx]; constructor; [done|].
  eapply Forall_impl; [exact Hx|]. apply Himpl.
Qed.

(** X14.  When every completed task has a [completedAt] that is a date,
    the completed list holds the completed tasks, the one completed last
    first. *)
Theorem completedTodos_newest_first date_getTime todos :
  (forall todo,
      todo ∈ todos -> completed todo = true ->
      exists at_ time,
        present (completedAt todo) = Some at_ /\ date_getTime at_ = Some time) ->
  completedTodos date_getTime todos
    ≡ₚ filter (fun todo => completed todo = true) todos
  /\ StronglySorted
       (fun a b => completion_time date_getTime b <= completion_time date_getTime a)
       (completedTodos date_getTime todos).
Proof.
  intros Hdated. split; [apply sort_Permutation|].
  apply (StronglySorted_impl
           (fun a b => - completion_time date_getTime a
                       <= - completion_time date_getTime b)); [intros; lia|].
  apply (sort_sorted _ (fun todo => - completion_time date_getTime todo)
           (fun todo => exists at_ time,
                present (completedAt todo) = Some at_
                /\ date_getTime at_ = Some time)).
  - intros a b (atA & timeA & HatA & HtimeA) (atB & timeB & HatB & HtimeB).
    unfold byCompletedAt, completion_time.
    rewrite HatA, HatB. simpl. rewrite HtimeA, HtimeB. simpl. lia.
  - apply Forall_forall. intros todo Hin.
    apply list_elem_of_filter in Hin as [Hdone Hin]. by apply Hdated.
Qed.

(** The seed after its first task, then its second task were completed:
    the second one is first, the one completed in the seed is last. *)
Lemma completedTodos_newest_first_witness :
  let todos :=
    items (toggleComplete calls2 "id-2"
             (toggleComplete calls1 "id-1" (initialState seed0))) in
  completedTodos iso_getTime todos
    ≡ₚ filter (fun todo => completed todo = true) todos
  /\ StronglySorted
       (fun a b => completion_time iso_getTime b <= completion_time iso_getTime a)
       (completedTodos iso_getTime todos).
Proof.
  intros todos.
  apply (completedTodos_newest_first iso_getTime todos).
  intros todo Hin _.
  repeat (apply elem_of_cons in Hin as [->|Hin]; [by do 2 eexists|]).
  by apply elem_of_nil in Hin.
Defined.

Example completedTodos_seed :
  id <$> completedTodos iso_getTime
           (items (toggleComplete calls2 "id-2"
                     (toggleComplete calls1 "id-1" (initialState seed0))))
  = ["id-2"; "id-1"; "id-3"].
Proof. reflexivity. Qed.

(** ** [trim], [split] and [join] *)

Section Strings.

Lemma trimStart_head s :
  trimStart s = EmptyString
  \/ exists c rest, trimStart s = String c rest /\ is_white_space c = false.
Proof.
  induction s as [|c s IH]; [by left|]. simpl.
  destruct (is_white_space c) eqn:Hc; [done|]. right. by exists c, s.
Qed.

Lemma trimEnd_head c rest :
  is_white_space c = false -> exists kept, trimEnd (String c rest) = String c kept.
Proof.
  intros Hc. simpl. destruct (trimEnd rest); rewrite ?Hc; by eexists.
Qed.

Lemma trimEnd_idem s : trimEnd (trimEnd s) = trimEnd s.
Proof.
  induction s as [|c s IH]; [done|]. simpl.
  destruct (trimEnd s) as [|d kept] eqn:Hs.
  - destruct (is_white_space c) eqn:Hc; [done|]. simpl. by rewrite Hc.
  - change (trimEnd (String c (String d kept)))
      with (match trimEnd (String d kept) with
            | EmptyString =>
                if is_white_space c then EmptyString else String c EmptyString
            | String _ _ as k => String c k
            end).
    by rewrite IH.
Qed.

(** A trimmed text is empty or starts with a character that is no white
    space. *)
Lemma trim_head s :
  trim s = EmptyString
  \/ exists c rest, trim s = String c rest /\ is_white_space c = false.
Proof.
  unfold trim. destruct (trimStart_head s) as [->|(c & rest & -> & Hc)]; [by left|].
  right. destruct (trimEnd_head c rest Hc) as [kept ->]. by exists c, kept.
Qed.

(** Trimming twice is trimming once. *)
Lemma trim_idem s : trim (trim s) = trim s.
Proof.
  destruct (trim_head s) as [->|(c & rest & Hs & Hc)]; [done|].
  unfold trim at 1. rewrite Hs. simpl. rewrite Hc.
  rewrite <- Hs. unfold trim. apply trimEnd_idem.
Qed.

Lemma trim_empty_iff s : truthy (trim (trim s)) = truthy (trim s).
Proof. by rewrite trim_idem. Qed.

(** A text that starts with a character that is no white space is not
    blank. *)
Lemma trim_truthy c rest :
  is_white_space c = false -> truthy (trim (String c rest)) = true.
Proof.
  intros Hc. unfold trim. simpl trimStart. rewrite Hc.
  by destruct (trimEnd_head c rest Hc) as [kept ->].
Qed.

Lemma free_of_trimStart sep s :
  free_of sep s = true -> free_of sep (trimStart s) = true.
Proof.
  induction s as [|c s IH]; [done|]. simpl. intros H.
  destruct (is_white_space c); [|done].
  apply andb_true_iff in H as [_ H]. by apply IH.
Qed.

Lemma free_of_trimEnd sep s :
  free_of sep s = true -> free_of sep (trimEnd s) = true.
Proof.
  induction s as [|c s IH]; [done|]. simpl. intros H.
  apply andb_true_iff in H as [Hc H]. specialize (IH H).
  destruct (trimEnd s) as [|d kept].
  - destruct (is_white_space c); [done|]. simpl. by rewrite Hc.
  - simpl in *. by rewrite Hc, IH.
Qed.

Lemma free_of_trim sep s : free_of sep s = true -> free_of sep (trim s) = true.
Proof. intros H. by apply free_of_trimEnd, free_of_trimStart. Qed.

(** The pieces of a split hold no separator. *)
Lemma split_free_of sep s : Forall (fun piece => free_of sep piece = true) (split sep s).
Proof.
  induction s as [|c s IH]; [by repeat constructor|]. simpl.
  destruct (Ascii.eqb c sep) eqn:Hc; [by constructor|].
  destruct (split sep s) as [|piece pieces]; [by repeat constructor; simpl; rewrite Hc|].
  apply Forall_cons in IH as [Hpiece Hpieces].
  constructor; [|done]. simpl. by rewrite Hc, Hpiece.
Qed.

(** A text without separator is one piece; a separator after such a text
    ends the first piece. *)
Lemma split_one sep piece :
  free_of sep piece = true -> split sep piece = [piece].
Proof.
  induction piece as [|c s IH]; [done|]. simpl. intros H.
  apply andb_true_iff in H as [Hc H].
  destruct (Ascii.eqb c sep); [done|]. by rewrite IH.
Qed.

Lemma split_first sep piece rest :
  free_of sep piece = true ->
  split sep (piece ++ String sep rest) = piece :: split sep rest.
Proof.
  induction piece as [|c s IH]; intros H.
  - change (EmptyString ++ String sep rest) with (String sep rest).
    simpl. by rewrite Ascii.eqb_refl.
  - simpl in H. apply andb_true_iff in H as [Hc H].
    change (String c s ++ String sep rest) with (String c (s ++ String sep rest)).
    simpl. destruct (Ascii.eqb c sep); [done|]. by rewrite IH.
Qed.

End Strings.


(** ** Category labels *)

Section Labels.

Lemma split_cons sep s : exists piece pieces, split sep s = piece :: pieces.
Proof.
  induction s as [|c s (piece & pieces & IH)]; [by do 2 eexists|]. simpl.
  destruct (Ascii.eqb c sep); [by do 2 eexists|]. rewrite IH. by do 2 eexists.
Qed.

Lemma trimmed_pieces_are_labels (pieces : list string) :
  Forall (fun piece => free_of ","%char piece = true) pieces ->
  Forall label (List.filter truthy (List.map trim pieces)).
Proof.
  induction 1 as [|piece pieces Hfree _ IH]; [constructor|]. simpl.
  destruct (truthy (trim piece)) eqn:Hpiece; [|done].
  constructor; [|done]. split_and!; [apply trim_idem | done | by apply free_of_trim].
Qed.

Lemma labels_are_labels text : Forall label (labels text).
Proof. apply trimmed_pieces_are_labels, split_free_of. Qed.

(** A space after the comma makes no difference to the labels. *)
Lemma map_trim_split_space s :
  List.map trim (split ","%char (String " "%char s))
  = List.map trim (split ","%char s).
Proof.
  change (split ","%char (String " "%char s))
    with (match split ","%char s with
          | piece :: pieces => String " "%char piece :: pieces
          | [] => [String " "%char EmptyString]
          end).
  by destruct (split_cons ","%char s) as (piece & pieces & ->).
Qed.

(** The labels of joined labels are these labels. *)
Lemma labels_join (pieces : list string) :
  Forall label pieces -> labels (join ", " pieces) = pieces.
Proof.
  induction 1 as [|piece pieces (Htrim & Hfull & Hfree) Hpieces IH]; [done|].
  unfold labels in *. destruct pieces as [|next pieces].
  - change (join ", " [piece]) with piece.
    rewrite split_one by done. simpl. by rewrite Htrim, Hfull.
  - change (join ", " (piece :: next :: pieces))
      with (piece ++ String ","%char (String " "%char (join ", " (next :: pieces)))).
    rewrite split_first by done.
    change (List.map trim (piece :: ?l)) with (trim piece :: List.map trim l).
    rewrite map_trim_split_space, Htrim.
    change (List.filter truthy (piece :: ?l))
      with (if truthy piece then piece :: List.filter truthy l
            else List.filter truthy l).
    by rewrite Hfull, IH.
Qed.

(** Joined labels, if there are any, are not blank. *)
Lemma join_labels_truthy (pieces : list string) :
  Forall label pieces -> pieces ≠ [] ->
  truthy (trim (join ", " pieces)) = true.
Proof.
  intros Hlabels Hsome. destruct Hlabels as [|piece pieces (Htrim & Hfull & _) _]; [done|].
  destruct (trim_head piece) as [Hempty|(c & rest & Hpiece & Hc)].
  { rewrite Htrim in Hempty. by rewrite Hempty in Hfull. }
  rewrite Htrim in Hpiece. subst piece.
  destruct pieces as [|next pieces]; [by apply trim_truthy|].
  change (join ", " (String c rest :: next :: pieces))
    with (String c (rest ++ ", " ++ join ", " (next :: pieces))).
  by apply trim_truthy.
Qed.

Lemma normalizeCategories_labels text :
  normalizeCategories text = join ", " (labels text).
Proof. reflexivity. Qed.

Lemma labels_nil_iff text : labels text = [] <-> normalizeCategories text = EmptyString.
Proof.
  rewrite normalizeCategories_labels. split; [by intros ->|]. intros Hjoin.
  destruct (labels text) as [|piece pieces] eqn:Hl; [done|].
  pose proof (labels_are_labels text) as Hlabels. rewrite Hl in Hlabels.
  pose proof (join_labels_truthy _ Hlabels ltac:(done)) as Htruthy.
  by rewrite Hjoin in Htruthy.
Qed.

Lemma labels_normalizeCategories text :
  labels (normalizeCategories text) = labels text.
Proof. rewrite normalizeCategories_labels. apply labels_join, labels_are_labels. Qed.

Lemma normalizeCategories_idem text :
  normalizeCategories (normalizeCategories text) = normalizeCategories text.
Proof.
  by rewrite (normalizeCategories_labels (normalizeCategories text)),
    labels_normalizeCategories.
Qed.

End Labels.

(** X15.  The category that [normalizeCategories] makes of a text has the
    labels of the text, and it is left as it is when normalized again: it
    is empty when the text has no label, else the labels joined by a
    comma and a space. *)
Theorem normalizeCategories_round_trip text :
  labels (normalizeCategories text) = labels text
  /\ normalizeCategories (normalizeCategories text) = normalizeCategories text
  /\ (normalizeCategories text = EmptyString <-> labels text = []).
Proof.
  split_and!;
    [apply labels_normalizeCategories | apply normalizeCategories_idem
    | by rewrite labels_nil_iff].
Qed.

Example normalizeCategories_example :
  normalizeCategories " Home ,, Food,  " = "Home, Food"
  /\ labels " Home ,, Food,  " = ["Home"; "Food"]
  /\ labels "Home, Food" = ["Home"; "Food"].
Proof. split_and!; reflexivity. Qed.

(** ** From the form to the store *)

Section FormToStore.

Lemma stored_description text :
  nonblank (Some (trim text))
  = if truthy (trim text) then Some (trim text) else None.
Proof. simpl. by rewrite trim_idem. Qed.

Lemma stored_category text :
  nonblank (Some (if truthy (normalizeCategories text)
                  then normalizeCategories text else EmptyString))
  = if truthy (normalizeCategories text)
    then Some (normalizeCategories text) else None.
Proof.
  destruct (truthy (normalizeCategories text)) eqn:Hsome; [|done].
  simpl. rewrite normalizeCategories_labels, join_labels_truthy; [done| |].
  - apply labels_are_labels.
  - intros Hnil%labels_nil_iff. by rewrite Hnil in Hsome.
Qed.

Lemma truthy_false s : truthy s = false <-> s = EmptyString.
Proof. by destruct s. Qed.

End FormToStore.

(** X16.  A task that the form creates is normalized: its title is
    trimmed, its description is the trimmed description of the form or
    none when that is blank, its category is the normalized category or
    none when the text has no label, so that the card shows the labels
    that the form showed; the priority is the one of the form. *)
Theorem form_creates_normalized toISO w values state :
  trim (values_title values) ≠ EmptyString ->
  values_dueDate values = EmptyString
  \/ is_Some (toISO (values_dueDate values)) ->
  exists created,
    submit toISO w None values state
    = Normal (mkTodosState (items state ++ [created]) (Some (touched w)))
    /\ normalized created
    /\ description created
       = (if truthy (trim (values_description values))
          then Some (trim (values_description values)) else None)
    /\ categories created = labels (values_category values)
    /\ priority created = values_priority values
    /\ (values_dueDate values = EmptyString -> dueDate created = None).
Proof.
  intros Htitle Hdate. unfold submit, handleFormSubmit.
  destruct (trim (values_title values)) as [|c rest] eqn:Ht; [done|].
  cbn [truthy negb].
  assert (Hcreated : forall due,
    let created :=
      mkTodoItem (nanoid w) (String c rest)
        (nonblank (Some (trim (values_description values))))
        (nonblank (Some (if truthy (normalizeCategories (values_category values))
                         then normalizeCategories (values_category values)
                         else EmptyString)))
        (values_priority values) due false Null (stamp w)
        (nextOrder (items state)) in
    normalized created
    /\ description created
       = (if truthy (trim (values_description values))
          then Some (trim (values_description values)) else None)
    /\ categories created = labels (values_category values)
    /\ priority created = values_priority values).
  { intros due created. unfold normalized, categories, created.
    cbn [title description category priority].
    rewrite stored_description, stored_category.
    pose proof (labels_normalizeCategories (values_category values)) as Hlabels.
    pose proof (normalizeCategories_idem (values_category values)) as Hidem.
    pose proof (labels_nil_iff (values_category values)) as Hnil.
    split_and!; try done.
    - rewrite <- Ht. apply trim_idem.
    - destruct (truthy (trim (values_description values))) eqn:Hd; [|done].
      split; [apply trim_idem|]. intros Hempty. by rewrite Hempty in Hd.
    - destruct (truthy (normalizeCategories (values_category values))) eqn:Hc;
        [|done].
      split; [done|]. intros Hempty. by rewrite Hempty in Hc.
    - destruct (truthy (normalizeCategories (values_category values))) eqn:Hc.
      + by rewrite Hc.
      + apply truthy_false in Hc. symmetry. by apply Hnil. }
  destruct Hdate as [Hdate|[iso Hdate]].
  - rewrite Hdate. simpl. eexists. split; [reflexivity|].
    destruct (Hcreated None) as (? & ? & ? & ?). by split_and!.
  - rewrite Hdate. destruct (truthy (values_dueDate values)) eqn:Hdue; simpl.
    + eexists. split; [reflexivity|].
      destruct (Hcreated (if truthy iso then Some iso else None)) as (? & ? & ? & ?).
      split_and!; try done. intros Hempty. by rewrite Hempty in Hdue.
    + eexists. split; [reflexivity|].
      destruct (Hcreated None) as (? & ? & ? & ?). by split_and!.
Qed.

Lemma form_creates_normalized_witness :
  let values :=
    mkTaskFormValues " Buy milk " "  " " Home ,, Food,  " high "2026-01-05" in
  exists created,
    submit date_input_toISOString calls1 None values (initialState seed0)
    = Normal (mkTodosState (items (initialState seed0) ++ [created])
                           (Some "2026-01-02T10:00:00.001Z"))
    /\ normalized created
    /\ description created = None
    /\ categories created = ["Home"; "Food"]
    /\ priority created = high
    /\ created
       = mkTodoItem "id-4" "Buy milk" None (Some "Home, Food") high
                    (Some "2026-01-05T00:00:00.000Z") false Null
                    "2026-01-02T10:00:00.000Z" 4.
Proof.
  intros values.
  destruct (form_creates_normalized date_input_toISOString calls1 values
              (initialState seed0))
    as (created & Hsubmit & Hnormal & Hdescription & Hcategories & Hpriority & _).
  - discriminate.
  - right. by eexists.
  - exists created. split_and!; try done.
    injection Hsubmit as Hitems. by simplify_list_eq.
Defined.

(** X17.  Saving the form of a normalized task without touching it leaves
    the collection as it is, provided the task has no due date or one
    that the date of its first ten characters gives back: only
    [lastUpdated] is set. *)
Theorem edit_without_change toISO w state i todo :
  find_by_id (id todo) (items state) = Some (i, todo) ->
  normalized todo ->
  match dueDate todo with
  | Some due => due ≠ EmptyString /\ toISO (substring 0 10 due) = Some due
  | None => True
  end ->
  submit toISO w (Some todo) (editing_values (Some todo)) state
  = Normal (mkTodosState (items state) (Some (touched w))).
Proof.
  intros Hfound (Htitle & Hsome & Hdescription & Hcategory) Hdue.
  pose proof (find_by_id_Some _ _ _ _ Hfound) as [Hi _].
  unfold submit, handleFormSubmit, editing_values. cbn [values_title].
  rewrite Htitle.
  destruct (title todo) as [|c rest] eqn:Ht; [done|]. cbn [truthy negb].
  cbn [values_dueDate values_description values_category values_priority].
  assert (Hd : nonblank (Some (trim (or_empty (description todo))))
               = description todo).
  { rewrite stored_description.
    destruct (description todo) as [d|]; [|done]. simpl.
    destruct Hdescription as [-> Hd]. by destruct d. }
  assert (Hc : nonblank
                 (Some (if truthy (normalizeCategories (or_empty (category todo)))
                        then normalizeCategories (or_empty (category todo))
                        else EmptyString))
               = category todo).
  { rewrite stored_category.
    destruct (category todo) as [cat|]; [|done]. simpl.
    destruct Hcategory as [-> Hcat]. by destruct cat. }
  assert (Hsame : forall due,
    or_undefined due = dueDate todo ->
    todosReducer w
      (UpdateTodo (id todo)
         (mkTodoChanges (String c rest)
            (Some (trim (or_empty (description todo))))
            (Some (if truthy (normalizeCategories (or_empty (category todo)))
                   then normalizeCategories (or_empty (category todo))
                   else EmptyString))
            (priority todo) due None)) state
    = mkTodosState (items state) (Some (touched w))).
  { intros due Hdue'. unfold todosReducer, updateTodo. rewrite Hfound.
    cbn [changes_title changes_description changes_category changes_priority
         changes_dueDate changes_completed].
    rewrite Hd, Hc, Hdue'. unfold touchState. cbn [items]. f_equal.
    apply list_insert_id. rewrite Hi. f_equal.
    destruct todo. simpl in *. by subst. }
  destruct (dueDate todo) as [due|] eqn:Hdate; simpl.
  - destruct Hdue as [Hfull Hiso]. destruct due as [|d due]; [done|].
    change (truthy (substring 0 10 (String d due))) with true. cbv iota.
    rewrite Hiso. apply f_equal, (Hsame (Value (String d due))). reflexivity.
  - apply f_equal, (Hsame Undefined). reflexivity.
Qed.

(** The task that the form created from " Buy milk ", edited and saved
    untouched. *)
Lemma edit_without_change_witness :
  let milk :=
    mkTodoItem "id-4" "Buy milk" None (Some "Home, Food") high
               (Some "2026-01-05T00:00:00.000Z") false Null
               "2026-01-02T10:00:00.000Z" 4 in
  let state := mkTodosState (items (initialState seed0) ++ [milk])
                            (Some "2026-01-02T10:00:00.001Z") in
  submit date_input_toISOString calls2 (Some milk) (editing_values (Some milk)) state
  = Normal (mkTodosState (items state) (Some "2026-01-02T11:00:00.001Z")).
Proof.
  intros milk state.
  apply (edit_without_change date_input_toISOString calls2 state 3 milk).
  - reflexivity.
  - unfold normalized. simpl. split_and!; try reflexivity; discriminate.
  - simpl. split; [discriminate|reflexivity].
Defined.

(** ** The delete confirmation *)

(** X18.  While the preference to skip the confirmation is off, asking to
    delete a task changes nothing in the store: it opens the dialog on
    the task, or does nothing at all when no task has the id.  Cancelling
    leaves the store as it is; confirming deletes the tasks with the id
    and closes the dialog. *)
Theorem delete_needs_confirmation w w' wanted dialog state :
  skipDeleteConfirm dialog = false ->
  let asked := requestDelete w wanted (dialog, state) in
  asked.2 = state
  /\ cancelDelete asked = (mkDeleteDialog None (dontAskAgain asked.1) false, state)
  /\ (find_by_id wanted (items state) = None -> asked = (dialog, state))
  /\ (forall i todo,
        find_by_id wanted (items state) = Some (i, todo) ->
        asked.1 = mkDeleteDialog (Some todo) false false
        /\ confirmDelete w' asked
           = (mkDeleteDialog None false false, deleteTodo w' wanted state)
        /\ find_by_id wanted (items (confirmDelete w' asked).2) = None).
Proof.
  intros Hskip asked. unfold asked, requestDelete.
  destruct (find_by_id wanted (items state)) as [[i todo]|] eqn:Hfound;
    rewrite ?Hskip; simpl; rewrite ?Hskip.
  - split_and!; try done. intros ? ? [= <- <-].
    apply find_by_id_Some in Hfound as [_ ->].
    split_and!; try done. apply (find_by_id_deleted w' wanted state).
  - by split_and!.
Qed.

Lemma delete_needs_confirmation_witness :
  let dialog := mkDeleteDialog None false false in
  let state := initialState seed0 in
  let asked := requestDelete calls1 "id-2" (dialog, state) in
  asked.2 = state
  /\ cancelDelete asked = (dialog, state)
  /\ confirmDelete calls2 asked = (dialog, deleteTodo calls2 "id-2" state)
  /\ find_by_id "id-2" (items (confirmDelete calls2 asked).2) = None.
Proof.
  intros dialog state asked.
  destruct (delete_needs_confirmation calls1 calls2 "id-2" dialog state eq_refl)
    as (Hstore & Hcancel & _ & Hconfirm).
  destruct (Hconfirm 1%nat
              (mkTodoItem "id-2" "Grocery run"
                 (Some "Ingredients for the weekend dinner party.")
                 (Some "Personal") medium (Some "2026-01-05T09:00:00.000Z")
                 false Null "2026-01-01T09:00:00.000Z" 2) eq_refl)
    as (_ & Hdeleted & Hgone).
  split_and!; [exact Hstore | exact Hcancel | exact Hdeleted | exact Hgone].
Defined.

(** X19.  Confirming with "don't ask again" checked turns the preference
    on, and from then on asking to delete a task of the store deletes it
    at once, without dialog; confirming without it leaves the preference
    as it was. *)
Theorem dont_ask_again w w' wanted checked pending dialog state :
  pendingDelete dialog = Some pending ->
  let confirmed := confirmDelete w (setDontAskAgain checked (dialog, state)) in
  skipDeleteConfirm confirmed.1
  = (if checked then true else skipDeleteConfirm dialog)
  /\ confirmed.2 = deleteTodo w (id pending) state
  /\ (checked = true ->
      forall i todo,
        find_by_id wanted (items confirmed.2) = Some (i, todo) ->
        requestDelete w' wanted confirmed
        = (confirmed.1, deleteTodo w' wanted confirmed.2)).
Proof.
  intros Hpending confirmed. unfold confirmed, confirmDelete, setDontAskAgain.
  cbn [pendingDelete dontAskAgain skipDeleteConfirm]. rewrite Hpending.
  cbn [fst snd]. split_and!; try done.
  intros -> i todo Hfound. unfold requestDelete. by rewrite Hfound.
Qed.

Lemma dont_ask_again_witness :
  let first :=
    mkTodoItem "id-1" "Plan sprint backlog"
      (Some "Review tasks for the week and assign ownership.")
      (Some "Work") high (Some "2026-01-03T09:00:00.000Z")
      false Null "2026-01-01T09:00:00.000Z" 1 in
  let dialog := mkDeleteDialog (Some first) false false in
  let confirmed :=
    confirmDelete calls1 (setDontAskAgain true (dialog, initialState seed0)) in
  skipDeleteConfirm confirmed.1 = true
  /\ id <$> items confirmed.2 = ["id-2"; "id-3"]
  /\ id <$> items (requestDelete calls2 "id-3" confirmed).2 = ["id-2"].
Proof.
  intros first dialog confirmed.
  destruct (dont_ask_again calls1 calls2 "id-3" true first dialog
              (initialState seed0) eq_refl)
    as (Hskip & Hstore & Hnext).
  split_and!; [exact Hskip | reflexivity |].
  unfold confirmed.
  by rewrite (Hnext eq_refl 1%nat
                (mkTodoItem "id-3" "Call mom" (Some EmptyString) (Some "Family")
                   low None true (Value "2026-01-01T09:00:00.000Z")
                   "2026-01-01T09:00:00.000Z" 3) eq_refl).
Defined.

(** ** The slots of the local storage *)

Lemma slot_put_other key key' value kvs :
  key' ≠ key -> slot key' (put key value kvs) = slot key' kvs.
Proof.
  intros Hne. induction kvs as [|[k v] kvs IH]; simpl.
  - by destruct (String.eqb_spec key key').
  - destruct (String.eqb_spec k key) as [->|Hk]; simpl.
    + by destruct (String.eqb_spec key key').
    + by rewrite IH.
Qed.

(** X20.  When the browser lets the application write, the preference
    that the effect stores is the one that the next start reads, and
    storing it leaves the slot of the tasks as it is. *)
Theorem skip_preference_round_trip skip localStorage :
  denied localStorage = false ->
  (5 <= quota localStorage)%N ->
  exists written,
    storeSkipDeleteConfirm skip (Some localStorage) = Normal (Some written)
    /\ initialSkipDeleteConfirm (Some written) = Normal skip
    /\ getItem STORAGE_KEY written = getItem STORAGE_KEY localStorage.
Proof.
  intros Hallowed Hquota. unfold storeSkipDeleteConfirm, setItem.
  rewrite Hallowed.
  assert (Hfits : (quota localStorage
                   <? N.of_nat (String.length (if skip then "true" else "false")))%N
                  = false).
  { apply N.ltb_ge. destruct skip; simpl; lia. }
  rewrite Hfits. eexists. split; [reflexivity|].
  unfold initialSkipDeleteConfirm, getItem. simpl.
  rewrite slot_put, slot_put_other by done. rewrite Hallowed.
  split; [|done]. by destruct skip.
Qed.

Lemma skip_preference_round_trip_witness :
  let localStorage := mkStorage false 5000000 [(STORAGE_KEY, "{}")] in
  exists written,
    storeSkipDeleteConfirm true (Some localStorage) = Normal (Some written)
    /\ initialSkipDeleteConfirm (Some written) = Normal true
    /\ getItem STORAGE_KEY written = Normal (Some "{}").
Proof.
  intros localStorage.
  apply (skip_preference_round_trip true localStorage); [reflexivity|].
  vm_compute. discriminate.
Defined.

(** X21.  When the browser denies the access to the storage, the
    persistence of the tasks gives way without throwing, [loadState]
    with [undefined] and [saveState] by leaving everything as it is,
    whereas reading or storing the preference throws. *)
Theorem denied_storage parse stringify state skip localStorage :
  denied localStorage = true ->
  loadState parse (Some localStorage) = None
  /\ saveState stringify state (Some localStorage) = Some localStorage
  /\ initialSkipDeleteConfirm (Some localStorage) = Throw
  /\ storeSkipDeleteConfirm skip (Some localStorage) = Throw.
Proof.
  intros Hdenied.
  unfold loadState, saveState, initialSkipDeleteConfirm, storeSkipDeleteConfirm,
    getItem, setItem.
  by rewrite Hdenied.
Qed.

Lemma denied_storage_witness :
  let localStorage := mkStorage true 5000000 [] in
  loadState Json.parse (Some localStorage) = None
  /\ saveState Json.stringify (mkPersistedState (initialState seed0))
       (Some localStorage) = Some localStorage
  /\ initialSkipDeleteConfirm (Some localStorage) = Throw
  /\ storeSkipDeleteConfirm true (Some localStorage) = Throw.
Proof.
  intros localStorage.
  apply (denied_storage Json.parse Json.stringify
           (mkPersistedState (initialState seed0)) true localStorage).
  reflexivity.
Defined.

(** X22.  [saveState] writes one slot: every other slot of the storage,
    the one of the preference among them, reads as before. *)
Theorem saveState_other_slots stringify state localStorage key :
  key ≠ STORAGE_KEY ->
  exists after,
    saveState stringify state (Some localStorage) = Some after
    /\ getItem key after = getItem key localStorage.
Proof.
  intros Hkey. unfold saveState, setItem, getItem.
  destruct (denied localStorage) eqn:Hdenied; [exists localStorage; by rewrite Hdenied|].
  destruct (_ <? _)%N; [exists localStorage; by rewrite Hdenied|].
  eexists. split; [reflexivity|]. simpl. by rewrite slot_put_other.
Qed.

Lemma saveState_other_slots_witness :
  let localStorage := mkStorage false 5000000 [(SKIP_KEY, "true")] in
  exists after,
    saveState Json.stringify (mkPersistedState (initialState seed0))
      (Some localStorage) = Some after
    /\ getItem SKIP_KEY after = Normal (Some "true").
Proof.
  intros localStorage.
  apply (saveState_other_slots Json.stringify
           (mkPersistedState (initialState seed0)) localStorage SKIP_KEY).
  discriminate.
Defined.

(** The storage after a save that the browser accepts. *)
Lemma saveState_written stringify state localStorage :
  denied localStorage = false ->
  (N.of_nat (String.length (stringify (PersistedState_to_json state)))
   <= quota localStorage)%N ->
  exists written,
    saveState stringify state (Some localStorage) = Some written
    /\ denied written = false
    /\ quota written = quota localStorage.
Proof.
  intros Hallowed Hfits. unfold saveState, setItem. rewrite Hallowed.
  destruct (N.ltb_spec (quota localStorage)
              (N.of_nat (String.length (stringify (PersistedState_to_json state)))));
    [lia|].
  by eexists.
Qed.

(** X23.  The slot holds the last state whose save the browser accepted:
    a second save that fits replaces the first state, a second save that
    is too long for the storage is dropped and leaves the first state to
    be loaded. *)
Theorem last_accepted_save_is_loaded first second localStorage :
  denied localStorage = false ->
  (N.of_nat (String.length (Json.stringify (PersistedState_to_json first)))
   <= quota localStorage)%N ->
  let saved_twice :=
    saveState Json.stringify second
      (saveState Json.stringify first (Some localStorage)) in
  loadState Json.parse saved_twice ≫= as_PersistedState
  = Some (if (quota localStorage
              <? N.of_nat (String.length
                             (Json.stringify (PersistedState_to_json second))))%N
          then first else second).
Proof.
  intros Hallowed Hfits saved_twice. unfold saved_twice.
  destruct (saveState_written Json.stringify first localStorage Hallowed Hfits)
    as (written & Hwritten & Hallowed' & Hquota).
  destruct (N.ltb_spec (quota localStorage)
              (N.of_nat (String.length
                           (Json.stringify (PersistedState_to_json second)))))
    as [Hlong|Hfits'].
  - assert (Hdropped : saveState Json.stringify second (Some written) = Some written).
    { unfold saveState, setItem. rewrite Hallowed', Hquota.
      by destruct (N.ltb_spec (quota localStorage)
                     (N.of_nat (String.length
                                  (Json.stringify (PersistedState_to_json second)))));
        [|lia]. }
    rewrite Hwritten, Hdropped, <- Hwritten.
    rewrite (save_then_load_with Json.parse Json.stringify first localStorage
               Hallowed Hfits parse_empty
               (parse_stringify _ (keys_once_PersistedState first))).
    apply as_PersistedState_to_json.
  - rewrite Hwritten.
    rewrite (save_then_load_with Json.parse Json.stringify second written
               Hallowed' ltac:(by rewrite Hquota) parse_empty
               (parse_stringify _ (keys_once_PersistedState second))).
    apply as_PersistedState_to_json.
Qed.

Lemma last_accepted_save_is_loaded_witness :
  let first := mkPersistedState (initialState seed0) in
  let second :=
    mkPersistedState
      (addTodo calls1 (mkCreateTodoPayload "Buy milk" None None medium Undefined)
         (initialState seed0)) in
  loadState Json.parse
    (saveState Json.stringify second
       (saveState Json.stringify first (Some (mkStorage false 5000000 []))))
    ≫= as_PersistedState = Some second
  /\ loadState Json.parse
       (saveState Json.stringify second
          (saveState Json.stringify first (Some (mkStorage false 800 []))))
       ≫= as_PersistedState = Some first.
Proof.
  intros first second. split.
  - apply (last_accepted_save_is_loaded first second (mkStorage false 5000000 []));
      [reflexivity | vm_compute; discriminate].
  - apply (last_accepted_save_is_loaded first second (mkStorage false 800 []));
      [reflexivity | vm_compute; discriminate].
Defined.

(** ** [lastUpdated] *)

(** X24.  No reducer changes the collection without setting [lastUpdated]
    to the time of the call: the only runs that leave [lastUpdated] alone
    are the ones of [updateTodo] and [toggleComplete] that find no task,
    and they change nothing. *)
Theorem changes_are_stamped w action state :
  items (todosReducer w action state) ≠ items state ->
  lastUpdated (todosReducer w action state) = Some (touched w).
Proof.
  destruct action as [payload|wanted changes|wanted|wanted|updatedIds];
    simpl; try done.
  - unfold updateTodo. by destruct (find_by_id wanted (items state)) as [[i todo]|].
  - unfold toggleComplete. by destruct (find_by_id wanted (items state)) as [[i todo]|].
Qed.

Lemma changes_are_stamped_witness :
  lastUpdated (todosReducer calls1 (ToggleComplete "id-1") (initialState seed0))
  = Some "2026-01-02T10:00:00.001Z".
Proof.
  apply (changes_are_stamped calls1 (ToggleComplete "id-1") (initialState seed0)).
  discriminate.
Defined.
